(** * Clause-by-clause contract analysis: segmentation, ambiguity and risk

    A shallow embedding of the three core modules of the repository,

      - [app/modules/clause_extractor.py]  (module [ClauseExtractor]),
      - [app/modules/clause_risk.py]       (module [ClauseRisk]),
      - [app/modules/ambiguity_detector.py] (module [AmbiguityDetector]),

    together with the fragment of Python's [str] and [re] behaviour they
    rely on (module [PyStr]).

    Texts are Python [str] values whose code points are all below 256; a
    Rocq [string] lists those code points, one [ascii] per code point.  The
    character classes below are Python's ([str.isspace], [\s], [\d],
    [str.islower], [str.isupper], [str.lower]) on that range.  Message
    strings that the code only appends to its output (reasons, suggestions,
    tags) are carried as literals. *)

From Stdlib Require Import List Ascii String ZArith QArith Qminmax Qround Lia Bool.
From Stdlib Require Floats.PrimFloat Floats.SpecFloat Floats.FloatOps.
From Stdlib Require Uint63 DecimalString.
Import ListNotations.

Local Open Scope string_scope.
Local Open Scope bool_scope.

(* ================================================================= *)
(** ** Python strings *)

Module PyStr.

Definition code (c : ascii) : N := N_of_ascii c.

Definition between (lo hi n : N) : bool := ((lo <=? n) && (n <=? hi))%N.

(** [str.isspace] / [\s] / the characters removed by [str.strip()]:
    U+0009..U+000D, U+001C..U+0020, U+0085, U+00A0. *)
Definition isspace (c : ascii) : bool :=
  let n := code c in
  between 9 13 n || between 28 32 n || (n =? 133)%N || (n =? 160)%N.

(** [\d] (Unicode decimal digits): only 0..9 below 256. *)
Definition isdigit (c : ascii) : bool := between 48 57 (code c).

(** Characters with the Uppercase property: A..Z, U+00C0..U+00D6,
    U+00D8..U+00DE. *)
Definition isupper_char (c : ascii) : bool :=
  let n := code c in
  between 65 90 n || between 192 214 n || between 216 222 n.

(** Characters with the Lowercase property: a..z, U+00AA, U+00B5, U+00BA,
    U+00DF..U+00F6, U+00F8..U+00FF. *)
Definition islower_char (c : ascii) : bool :=
  let n := code c in
  between 97 122 n || (n =? 170)%N || (n =? 181)%N || (n =? 186)%N
  || between 223 246 n || between 248 255 n.

(** [str.lower] on one character: every uppercase character below 256 maps
    to the character 32 code points above it. *)
Definition lower_char (c : ascii) : ascii :=
  if isupper_char c then ascii_of_N (code c + 32) else c.

Fixpoint lower (s : string) : string :=
  match s with
  | EmptyString => EmptyString
  | String c t => String (lower_char c) (lower t)
  end.

Fixpoint existsb_char (p : ascii -> bool) (s : string) : bool :=
  match s with
  | EmptyString => false
  | String c t => p c || existsb_char p t
  end.

(** [str.isupper]: at least one uppercase character and no lowercase one. *)
Definition isupper (s : string) : bool :=
  negb (existsb_char islower_char s) && existsb_char isupper_char s.

(** [k in s] on strings. *)
Fixpoint contains (k s : string) : bool :=
  prefix k s ||
  match s with
  | EmptyString => false
  | String _ t => contains k t
  end.

(** [any(k in text for k in ks)]. *)
Definition any_in (ks : list string) (text : string) : bool :=
  existsb (fun k => contains k text) ks.

Fixpoint lstrip (s : string) : string :=
  match s with
  | EmptyString => EmptyString
  | String c t => if isspace c then lstrip t else s
  end.

Fixpoint rstrip (s : string) : string :=
  match s with
  | EmptyString => EmptyString
  | String c t =>
      match rstrip t with
      | EmptyString => if isspace c then EmptyString else String c EmptyString
      | t' => String c t'
      end
  end.

(** [s.strip()] *)
Definition strip (s : string) : string := rstrip (lstrip s).

(** [s.replace(a, b)] for single characters; also [re.sub] of a
    one-character pattern by a one-character replacement. *)
Fixpoint replace_char (a b : ascii) (s : string) : string :=
  match s with
  | EmptyString => EmptyString
  | String c t => String (if Ascii.eqb c a then b else c) (replace_char a b t)
  end.

Fixpoint repeat_char (c : ascii) (n : nat) : string :=
  match n with
  | O => EmptyString
  | S k => String c (repeat_char c k)
  end.

(** What [re.sub(c{lo,}, c*keep, _)] leaves of a maximal run of [n]
    characters [c]: runs of [lo] or more shrink to [keep], shorter runs
    stay. *)
Definition flush_run (c : ascii) (lo keep n : nat) : string :=
  repeat_char c (if lo <=? n then keep else n)%nat.

(** [re.sub(c{lo,}, c*keep, s)]: the regex engine takes each run greedily,
    so every maximal run of [c] is rewritten once.  [n] counts the
    characters of the run read so far. *)
Fixpoint sub_runs (c : ascii) (lo keep : nat) (n : nat) (s : string) : string :=
  match s with
  | EmptyString => flush_run c lo keep n
  | String a t =>
      if Ascii.eqb a c then sub_runs c lo keep (S n) t
      else flush_run c lo keep n ++ String a (sub_runs c lo keep O t)
  end.

Definition nl : ascii := ascii_of_N 10.
Definition cr : ascii := ascii_of_N 13.
Definition tab : ascii := ascii_of_N 9.
Definition space : ascii := ascii_of_N 32.

(** [s.split("\n")] *)
Fixpoint split_nl (s : string) : list string :=
  match s with
  | EmptyString => [EmptyString]
  | String c t =>
      if Ascii.eqb c nl then EmptyString :: split_nl t
      else match split_nl t with
           | l :: ls => String c l :: ls
           | [] => [String c EmptyString]
           end
  end.

(** [" ".join(ls)] *)
Definition join_space (ls : list string) : string := String.concat " " ls.

End PyStr.

(* ================================================================= *)
(** ** clause_risk.py *)

Module ClauseRisk.
Import PyStr.

Inductive clause_type :=
| Termination | NonCompete | Confidentiality | Compensation
| IndemnityLiability | DisputeResolution | General.

Definition type_label (t : clause_type) : string :=
  match t with
  | Termination => "Termination"
  | NonCompete => "Non-Compete"
  | Confidentiality => "Confidentiality"
  | Compensation => "Compensation"
  | IndemnityLiability => "Indemnity & Liability"
  | DisputeResolution => "Dispute Resolution"
  | General => "General"
  end.

Definition classify_clause (clause : string) : clause_type :=
  let text := lower clause in
  if any_in ["terminate"; "termination"] text then Termination
  else if any_in ["non-compete"; "non compete"; "shall not compete";
                  "restriction after termination"] text then NonCompete
  else if any_in ["confidential"; "non-disclosure";
                  "confidential information"] text then Confidentiality
  else if any_in ["salary"; "compensation"; "fees"; "payment";
                  "remuneration"] text then Compensation
  else if any_in ["indemnify"; "liability"; "damages"; "losses"] text
       then IndemnityLiability
  else if any_in ["arbitration"; "jurisdiction"; "governing law"] text
       then DisputeResolution
  else General.

Definition critical_red_flags : list string :=
  ["sole discretion"; "without notice"; "at any time"; "irrevocable";
   "in perpetuity"; "unlimited liability"].

Definition ambiguity_terms : list string :=
  ["reasonable"; "best efforts"; "as soon as possible"; "from time to time";
   "material"].

(** The currency markers of the Compensation rule are the rupee sign U+20B9,
    ["inr"], ["rs."] and ["$"].  The rupee sign lies outside the code points
    a text of this model can hold, so only the other three can occur. *)
Definition currency_markers : list string := ["inr"; "rs."; "$"].

(** The four local variables that [assess_risk] updates. *)
Record scoring := Scoring {
  score : Z;
  reasons : list string;
  suggestions : list string;
  tags : list string
}.

Definition add_score (n : Z) (st : scoring) : scoring :=
  Scoring (score st + n) (reasons st) (suggestions st) (tags st).
Definition add_reason (r : string) (st : scoring) : scoring :=
  Scoring (score st) (reasons st ++ [r]) (suggestions st) (tags st).
Definition add_suggestion (r : string) (st : scoring) : scoring :=
  Scoring (score st) (reasons st) (suggestions st ++ [r]) (tags st).
Definition add_tag (r : string) (st : scoring) : scoring :=
  Scoring (score st) (reasons st) (suggestions st) (tags st ++ [r]).

Definition init : scoring := Scoring 0 [] [] [].

(** U+2013 (en dash) of the suggestion literal, as its UTF-8 bytes. *)
Definition en_dash : string :=
  String (ascii_of_N 226) (String (ascii_of_N 128) (String (ascii_of_N 147) "")).

(** The [if clause_type == ... elif ... else] chain. *)
Definition type_rules (ty : clause_type) (text : string) (st : scoring) : scoring :=
  match ty with
  | Termination =>
      let st := add_tag "Employment Risk" (add_score 20 st) in
      if any_in ["without notice"; "immediate termination"] text then
        add_tag "High Impact"
          (add_suggestion "Introduce minimum notice period (e.g., 30 days)."
             (add_reason "Termination without adequate notice."
                (add_score 30 st)))
      else st
  | NonCompete =>
      add_tag "Post-Termination Risk"
        (add_suggestion
           "Limit non-compete by duration, geography, and business scope."
           (add_reason "Restricts future employment opportunities."
              (add_score 35 st)))
  | Confidentiality =>
      let st := add_tag "IP Protection"
                  (add_reason "Standard confidentiality obligation."
                     (add_score 10 st)) in
      if contains "forever" text || contains "in perpetuity" text then
        add_suggestion ("Limit confidentiality to 2" ++ en_dash ++ "5 years.")
          (add_reason "Confidentiality obligation has no end date."
             (add_score 15 st))
      else st
  | Compensation =>
      if negb (any_in currency_markers text) then
        add_tag "Financial Risk"
          (add_suggestion "Specify clear payment amount and schedule."
             (add_reason "Compensation amount is unclear or missing."
                (add_score 25 st)))
      else
        add_reason "Compensation terms are defined." (add_score 5 st)
  | IndemnityLiability =>
      add_tag "Financial Exposure"
        (add_suggestion
           "Cap liability and exclude indirect or consequential damages."
           (add_reason "Broad indemnity or liability exposure."
              (add_score 30 st)))
  | DisputeResolution =>
      let st := add_tag "Legal Process" (add_score 10 st) in
      if contains "sole arbitrator appointed by" text then
        add_suggestion "Provide mutual appointment mechanism."
          (add_reason "Unilateral arbitrator appointment."
             (add_score 20 st))
      else st
  | General =>
      add_reason "General contractual obligation." (add_score 5 st)
  end.

Definition ambiguity_penalty (text : string) (st : scoring) : scoring :=
  if any_in ambiguity_terms text then
    add_tag "Ambiguity"
      (add_suggestion "Replace vague terms with measurable obligations."
         (add_reason "Uses ambiguous or subjective language."
            (add_score 10 st)))
  else st.

Definition red_flag_boost (text : string) (st : scoring) : scoring :=
  if any_in critical_red_flags text then
    add_tag "Critical"
      (add_reason "Contains critical red-flag language." (add_score 20 st))
  else st.

Inductive risk_level := Low | Medium | High.
Inductive priority := Optional | Recommended | Immediate.

Definition risk_label (r : risk_level) : string :=
  match r with Low => "Low" | Medium => "Medium" | High => "High" end.
Definition priority_label (p : priority) : string :=
  match p with
  | Optional => "Optional" | Recommended => "Recommended"
  | Immediate => "Immediate"
  end.

Definition final_level (s : Z) : risk_level * priority :=
  if (s >=? 60)%Z then (High, Immediate)
  else if (s >=? 30)%Z then (Medium, Recommended)
  else (Low, Optional).

(** Rounding to the nearest integer, ties to the even one. *)
Definition round_half_even (q : Q) : Z :=
  let f := Qfloor q in
  match Qcompare (q - inject_Z f) (1 # 2) with
  | Lt => f
  | Gt => (f + 1)%Z
  | Eq => if Z.even f then f else (f + 1)%Z
  end.

(** [round(q, 2)].  The score takes finitely many values (multiples of 5
    from 5 to 80); on each of them the double computed by Python is the
    double nearest to the two-decimal number computed here over the
    rationals. *)
Definition round2 (q : Q) : Q := inject_Z (round_half_even (q * 100)) / 100.

(** [min(0.95, 0.6 + score / 120)] *)
Definition raw_confidence (s : Z) : Q :=
  Qmin (95 # 100) ((6 # 10) + inject_Z s / 120).

Record risk_assessment := RiskAssessment {
  ra_type : clause_type;
  ra_risk_level : risk_level;
  ra_score : Z;
  ra_confidence : Q;
  ra_negotiation_priority : priority;
  ra_reasons : list string;
  ra_suggestions : list string;
  ra_tags : list string
}.

(** The state of the four locals when the final block is reached. *)
Definition scored (clause : string) : scoring :=
  let text := lower clause in
  red_flag_boost text
    (ambiguity_penalty text
       (type_rules (classify_clause clause) text init)).

Definition assess_risk (clause : string) : risk_assessment :=
  let st := scored clause in
  let '(level, prio) := final_level (score st) in
  {| ra_type := classify_clause clause;
     ra_risk_level := level;
     ra_score := score st;
     ra_confidence := round2 (raw_confidence (score st));
     ra_negotiation_priority := prio;
     ra_reasons := reasons st;
     ra_suggestions :=
       match suggestions st with
       | [] => ["No immediate action required."]
       | l => l
       end;
     ra_tags := tags st |}.

End ClauseRisk.

(* ================================================================= *)
(** ** ambiguity_detector.py *)

Module AmbiguityDetector.
Import PyStr.

Record term_meta := TermMeta {
  category : string;
  severity : Z;
  suggestion : string
}.

(** The lexicon, in the insertion order of the dict literal (the order in
    which Python iterates it). *)
Definition AMBIGUOUS_TERMS : list (string * term_meta) :=
  [ ("reasonable",
     TermMeta "Subjective" 2
       "Define objective standards or measurable criteria.");
    ("reasonably",
     TermMeta "Subjective" 2
       "Specify exact conditions instead of subjective judgment.");
    ("best efforts",
     TermMeta "Obligation" 3
       "Replace with clearly defined obligations or milestones.");
    ("commercially reasonable",
     TermMeta "Subjective" 3
       "Define industry benchmarks or financial limits.");
    ("from time to time",
     TermMeta "Timeline" 2 "Specify frequency or fixed intervals.");
    ("as soon as possible",
     TermMeta "Timeline" 3 "Replace with a defined number of days.");
    ("material",
     TermMeta "Scope" 2
       "Define what constitutes a material breach or change.");
    ("significant",
     TermMeta "Scope" 2 "Quantify what is considered significant.");
    ("substantial",
     TermMeta "Scope" 2 "Replace with numerical or objective thresholds.");
    ("at its discretion",
     TermMeta "Discretion" 3
       "Limit discretion with conditions or mutual consent.") ].

Definition detect_ambiguity (clause_text : string) : list string :=
  match clause_text with
  | EmptyString => []
  | _ =>
      let text := lower clause_text in
      filter (fun term => contains term text) (map fst AMBIGUOUS_TERMS)
  end.

(** A Python [set] of strings, kept as a duplicate-free list.  The order in
    which Python lists a set is unspecified; nothing below depends on it. *)
Definition set_add (x : string) (s : list string) : list string :=
  if existsb (String.eqb x) s then s else s ++ [x].

Definition set_of_list (l : list string) : list string :=
  fold_left (fun s x => set_add x s) l [].

(** The locals of the loop of [analyze_ambiguity]. *)
Record scan := Scan {
  found : list string;
  severity_score : Z;
  categories : list string;
  suggestions : list string
}.

Definition scan_item (text : string) (st : scan) (item : string * term_meta)
  : scan :=
  let '(term, meta) := item in
  if contains term text then
    Scan (found st ++ [term])
         (severity_score st + severity meta)
         (set_add (category meta) (categories st))
         (suggestions st ++ [suggestion meta])
  else st.

Inductive risk_level := Low | Medium | High.

Record ambiguity_analysis := AmbiguityAnalysis {
  aa_found_terms : list string;
  aa_severity_score : Z;
  aa_risk_level : risk_level;
  aa_categories : list string;
  aa_suggestions : list string;
  aa_explanation : string
}.

Definition analyze_ambiguity (clause_text : string) : ambiguity_analysis :=
  match clause_text with
  | EmptyString =>
      AmbiguityAnalysis [] 0 Low [] [] "No clause text provided."
  | _ =>
      let text := lower clause_text in
      let st := fold_left (scan_item text) AMBIGUOUS_TERMS (Scan [] 0 [] []) in
      let risk_level :=
        if (severity_score st >=? 6)%Z then High
        else if (severity_score st >=? 3)%Z then Medium
        else Low in
      let explanation :=
        match found st with
        | _ :: _ =>
            "Clause contains vague language that may lead to multiple interpretations and potential disputes."
        | [] => "No ambiguous legal language detected."
        end in
      AmbiguityAnalysis (found st) (severity_score st) risk_level
        (categories st) (set_of_list (suggestions st)) explanation
  end.

End AmbiguityDetector.

(* ================================================================= *)
(** ** clause_extractor.py *)

Module ClauseExtractor.
Import PyStr.

(** [text.replace("\t", " ")], then [re.sub] of [\r] by [\n], of [\n{3,}] by
    two newlines and of [[ ]{2,}] by one space, then [strip()]. *)
Definition clean_text (text : string) : string :=
  match text with
  | EmptyString => EmptyString
  | _ =>
      strip
        (sub_runs space 2 1 0
           (sub_runs nl 3 2 0
              (replace_char cr nl (replace_char tab space text))))
  end.

Definition _is_heading (line : string) : bool :=
  let line := strip line in
  isupper line && (5 <? length line)%nat && (length line <=? 60)%nat.

Inductive clause_kind :=
| SecurityDeposit | PaymentFinancial | MaintenanceHandover | UseRestrictions
| KTermination | NoticePossession | KNonCompete | KConfidentiality
| KIndemnityLiability | GoverningLaw | ForceMajeure | KGeneral.

Definition kind_label (k : clause_kind) : string :=
  match k with
  | SecurityDeposit => "Security Deposit & Refund"
  | PaymentFinancial => "Payment & Financial Terms"
  | MaintenanceHandover => "Maintenance & Handover"
  | UseRestrictions => "Use of Premises & Restrictions"
  | KTermination => "Termination"
  | NoticePossession => "Notice & Possession"
  | KNonCompete => "Non-Compete"
  | KConfidentiality => "Confidentiality"
  | KIndemnityLiability => "Indemnity & Liability"
  | GoverningLaw => "Governing Law & Jurisdiction"
  | ForceMajeure => "Force Majeure"
  | KGeneral => "General"
  end.

(** Each [re.search] of an alternation of literals is a substring test per
    alternative.  The last alternative of the payment pattern holds the code
    point U+201A, which no text of this model contains, and is left out;
    [non[- ]?compete] is spelled out as its three instances. *)
Definition guess_clause_type (text : string) : clause_kind :=
  let t := lower text in
  if any_in ["security deposit"; "advance deposit"; "refundable"; "refund"] t
  then SecurityDeposit
  else if any_in ["salary"; "wages"; "rent"; "payable"; "payment";
                  "electricity"; "charges"; "meter reading"; "rupees"] t
  then PaymentFinancial
  else if any_in ["maintain"; "maintenance"; "good condition"; "repair";
                  "restore"; "handing over"; "vacant possession";
                  "deliver the premises"] t
  then MaintenanceHandover
  else if any_in ["residential purpose"; "not sub-let"; "sublet";
                  "illegal activities"; "alteration"; "additional fittings";
                  "structures"] t
  then UseRestrictions
  else if any_in ["terminate"; "termination"; "dismiss"; "evicted";
                  "eviction"; "without notice"; "may terminate at any time"] t
  then KTermination
  else if any_in ["notice"; "vacating"; "vacate"; "vacation";
                  "required to give"; "three months notice";
                  "90 days notice"; "30 days notice"] t
  then NoticePossession
  else if any_in ["noncompete"; "non-compete"; "non compete";
                  "restriction after termination"] t
  then KNonCompete
  else if any_in ["confidential"; "non-disclosure"; "nda"] t
  then KConfidentiality
  else if any_in ["indemnify"; "indemnity"; "hold harmless"; "liable"] t
  then KIndemnityLiability
  else if any_in ["governing law"; "jurisdiction"; "courts at"] t
  then GoverningLaw
  else if any_in ["force majeure"; "act of god"] t
  then ForceMajeure
  else KGeneral.

Inductive source_tag :=
| src_paragraph | src_heading | src_numbered | src_sentence_split
| src_ocr_fallback.

Definition source_label (s : source_tag) : string :=
  match s with
  | src_paragraph => "paragraph"
  | src_heading => "heading"
  | src_numbered => "numbered"
  | src_sentence_split => "sentence-split"
  | src_ocr_fallback => "ocr-fallback"
  end.

(** A clause record.  The keys [quality] and [action] of the dict are
    computed from [text] alone, in floating point, after the clause has been
    cut; they take no part in the segmentation and are not carried here. *)
Record clause := Clause {
  clause_id : Z;
  title : option string;
  text : string;
  type_hint : clause_kind;
  source : source_tag
}.

Definition make_clause (id : Z) (ttl : option string) (txt : string)
           (src : source_tag) : clause :=
  Clause id ttl txt (guess_clause_type txt) src.

(** *** The ordinal prefix [^\d+(\.\d+)*[\)\.]?\s+]

    After the first digit: more digits, then groups of a dot and digits,
    then at most one of [)] and [.], then a whitespace character.  No other
    way of reading the prefix can succeed, so the match is decided in one
    pass. *)
Fixpoint number_tail (s : string) : bool :=
  match s with
  | EmptyString => false
  | String c t =>
      if isdigit c then number_tail t
      else if Ascii.eqb c "." then
        match t with
        | EmptyString => false
        | String d t' => if isdigit d then number_tail t' else isspace d
        end
      else if Ascii.eqb c ")" then
        match t with
        | EmptyString => false
        | String d _ => isspace d
        end
      else isspace c
  end.

Definition number_pattern_match (line : string) : bool :=
  match line with
  | EmptyString => false
  | String c t => isdigit c && number_tail t
  end.

(** *** The line loop (paragraph strategy) *)

(** The locals of the loop. *)
Record loop_state := LoopState {
  st_clauses : list clause;
  st_current : list string;
  st_title : option string;
  st_clause_id : Z;
  st_source : source_tag
}.

Definition loop_init : loop_state := LoopState [] [] None 1 src_paragraph.

(** [clauses.append({...})] for the block held in [current]. *)
Definition appended (st : loop_state) : list clause :=
  (st_clauses st
   ++ [make_clause (st_clause_id st) (st_title st)
         (join_space (st_current st)) (st_source st)])%list.

Definition loop_step (st : loop_state) (raw : string) : loop_state :=
  let line := strip raw in
  match line with
  | EmptyString => st
  | _ =>
      if _is_heading line then
        match st_current st with
        | [] =>
            LoopState (st_clauses st) [] (Some line) (st_clause_id st)
              src_heading
        | _ :: _ =>
            LoopState (appended st) [] (Some line) (st_clause_id st + 1)
              src_heading
        end
      else if number_pattern_match line then
        match st_current st with
        | [] =>
            LoopState (st_clauses st) [line] None (st_clause_id st)
              src_numbered
        | _ :: _ =>
            LoopState (appended st) [line] None (st_clause_id st + 1)
              src_numbered
        end
      else
        LoopState (st_clauses st) (st_current st ++ [line])%list (st_title st)
          (st_clause_id st) (st_source st)
  end.

(** The value of [clauses] after the loop and the flush of the last block. *)
Definition paragraph_clauses (lines : list string) : list clause :=
  let st := fold_left loop_step lines loop_init in
  match st_current st with
  | [] => st_clauses st
  | _ :: _ => appended st
  end.

(** *** Pieces of the two [re.split] patterns *)

(** A literal matched under [(?i)] at the head of [s]: the matched text (as
    it stands in [s]) and the rest.  [lit] is in lower case. *)
Fixpoint match_ci (lit s : string) : option (string * string) :=
  match lit with
  | EmptyString => Some (EmptyString, s)
  | String a lit' =>
      match s with
      | EmptyString => None
      | String c t =>
          if Ascii.eqb (lower_char c) a then
            match match_ci lit' t with
            | Some (m, r) => Some (String c m, r)
            | None => None
            end
          else None
      end
  end.

(** [\s+] at the head of [s], before a literal: the whole run is taken. *)
Definition spaces1 (s : string) : option string :=
  match s with
  | EmptyString => None
  | String c _ => if isspace c then Some (lstrip s) else None
  end.

(** [a\s+b] under [(?i)] at the head of [s]: the text matched by [b]. *)
Definition two_words (a b s : string) : option string :=
  match match_ci a s with
  | None => None
  | Some (_, r) =>
      match spaces1 r with
      | None => None
      | Some r1 =>
          match match_ci b r1 with
          | None => None
          | Some (m, _) => Some m
          end
      end
  end.

Definition is_some {A : Type} (o : option A) : bool :=
  match o with Some _ => true | None => false end.

(** The lookahead
    [(?=the\s+(employee|employer)|employee\s+shall|employer\s+may|shall\s+receive|shall\s+not)]
    at the head of [s].  [None]: no alternative matches.  [Some g]: one
    does, and [g] is what group 1 holds: the word after "the" for the first
    alternative, nothing ([None]) for the other four, which lie outside the
    group. *)
Definition lookahead (s : string) : option (option string) :=
  match two_words "the" "employee" s with
  | Some g => Some (Some g)
  | None =>
      match two_words "the" "employer" s with
      | Some g => Some (Some g)
      | None =>
          if is_some (two_words "employee" "shall" s)
             || is_some (two_words "employer" "may" s)
             || is_some (two_words "shall" "receive" s)
             || is_some (two_words "shall" "not" s)
          then Some None
          else None
      end
  end.

Fixpoint run_length (p : ascii -> bool) (s : string) : nat :=
  match s with
  | EmptyString => O
  | String c t => if p c then S (run_length p t) else O
  end.

(** Put a character in front of the piece under construction. *)
Definition cons_piece {A : Type} (inj : string -> A) (get : A -> string)
           (c : ascii) (l : list A) : list A :=
  match l with
  | x :: r => inj (String c (get x)) :: r
  | [] => [inj (String c EmptyString)]
  end.

Definition piece_text (o : option string) : string :=
  match o with Some s => s | None => EmptyString end.

(** [re.split] with the sentence pattern
    [(?i)(?<=\.)\s+(?=...)], scanning [s] from the left.  [prev_dot] tells
    whether the character before [s] is a period, [skip] how many characters
    of [s] still belong to the match in progress.  A match is a whitespace
    run that follows a period and is followed by one of the phrases; it ends
    the current piece, and, the pattern having one capturing group,
    [re.split] puts the content of the group into the list as well:
    Python's [None] (here [None]) when the group took no part in the
    match.  Pieces are [Some]. *)
Fixpoint sentence_pieces (prev_dot : bool) (skip : nat) (s : string)
  : list (option string) :=
  match s with
  | EmptyString => [Some EmptyString]
  | String c t =>
      match skip with
      | S k => sentence_pieces (Ascii.eqb c ".") k t
      | O =>
          match (if prev_dot && isspace c then lookahead (lstrip s)
                 else None) with
          | Some g =>
              Some EmptyString :: g
                :: sentence_pieces false (run_length isspace t) t
          | None =>
              cons_piece Some piece_text c
                (sentence_pieces (Ascii.eqb c ".") O t)
          end
      end
  end.

Definition sentence_split (block : string) : list (option string) :=
  sentence_pieces false O block.

Definition is_terminal (c : ascii) : bool :=
  Ascii.eqb c "." || Ascii.eqb c "!" || Ascii.eqb c "?".

(** The character class of the second alternative of the degraded-text
    pattern, as the source file spells it: newline, hyphen, U+00E2, U+00A2
    (and U+20AC, U+201C, U+201D, which no text of this model contains). *)
Definition is_break (c : ascii) : bool :=
  Ascii.eqb c nl || Ascii.eqb c "-"
  || Ascii.eqb c (ascii_of_N 226) || Ascii.eqb c (ascii_of_N 162).

(** [re.split] with [(?<=[\.\!\?])\s+|[...]+]: a match is a whitespace run
    after terminal punctuation, or else a run of break characters. *)
Fixpoint rough_pieces (prev_terminal : bool) (skip : nat) (s : string)
  : list string :=
  match s with
  | EmptyString => [EmptyString]
  | String c t =>
      match skip with
      | S k => rough_pieces (is_terminal c) k t
      | O =>
          if prev_terminal && isspace c then
            EmptyString :: rough_pieces false (run_length isspace t) t
          else if is_break c then
            EmptyString :: rough_pieces false (run_length is_break t) t
          else
            cons_piece (fun x => x) (fun x => x) c
              (rough_pieces (is_terminal c) O t)
      end
  end.

Definition rough_split (block : string) : list string :=
  rough_pieces false O block.

(** *** The two fallbacks *)

(** Outcome of a call: a value, or the [AttributeError] raised by
    [s.strip()] when [s] is [None]. *)
Inductive outcome (A : Type) :=
| Returns (a : A)
| AttributeError.
Arguments Returns {A} a.
Arguments AttributeError {A}.

(** The [for idx, s in enumerate(sentences, 1)] loop: [idx] counts every
    element of [sentences], kept or not. *)
Fixpoint sentence_clauses (idx : Z) (sentences : list (option string))
  : outcome (list clause) :=
  match sentences with
  | [] => Returns []
  | None :: _ => AttributeError
  | Some s :: rest =>
      let s := strip s in
      match sentence_clauses (idx + 1) rest with
      | AttributeError => AttributeError
      | Returns new_clauses =>
          if (length s <? 40)%nat then Returns new_clauses
          else Returns (make_clause idx None s src_sentence_split
                     :: new_clauses)
      end
  end.

(** The [for s in rough_sentences] loop: [cid] counts the kept fragments. *)
Fixpoint rebuilt_clauses (cid : Z) (rough_sentences : list string)
  : list clause :=
  match rough_sentences with
  | [] => []
  | s :: rest =>
      let s := strip s in
      if (length s <? 25)%nat then rebuilt_clauses cid rest
      else make_clause cid None s src_ocr_fallback
             :: rebuilt_clauses (cid + 1) rest
  end.

(** The degraded-text fallback and the final [return clauses]. *)
Definition ocr_or_paragraph (text : string) (clauses : list clause)
  : list clause :=
  let rebuilt := rebuilt_clauses 1 (rough_split (strip text)) in
  if (3 <=? List.length rebuilt)%nat then rebuilt else clauses.

Definition extract_clauses (text : string) : outcome (list clause) :=
  let text := clean_text text in
  let clauses := paragraph_clauses (split_nl text) in
  match clauses with
  | [only] =>
      let sentences := sentence_split (ClauseExtractor.text only) in
      if (3 <=? List.length sentences)%nat then
        match sentence_clauses 1 sentences with
        | AttributeError => AttributeError
        | Returns new_clauses =>
            if (1 <? List.length new_clauses)%nat then Returns new_clauses
            else Returns (ocr_or_paragraph text clauses)
        end
      else Returns (ocr_or_paragraph text clauses)
  | _ => Returns clauses
  end.

End ClauseExtractor.

(* ================================================================= *)
(** ** Python floats *)

Module PyFloat.
Import PrimFloat SpecFloat FloatOps.

(** [float(n)] for a small non-negative integer. *)
Definition of_nat (n : nat) : float :=
  PrimFloat.of_uint63 (Uint63.of_Z (Z.of_nat n)).

Definition of_Z (z : Z) : float := PrimFloat.of_uint63 (Uint63.of_Z z).

(** [min(a, b)] and [max(a, b)] on two numbers: Python keeps the first
    argument unless the second is strictly better. *)
Definition py_min (a b : float) : float := if PrimFloat.ltb b a then b else a.
Definition py_max (a b : float) : float := if PrimFloat.ltb a b then b else a.

(** The integer nearest to [m * 100 * 2^e], ties to the even one. *)
Definition hundredths (m : positive) (e : Z) : Z :=
  let n := (Zpos m * 100)%Z in
  if (0 <=? e)%Z then (n * 2 ^ e)%Z
  else
    let d := (2 ^ (- e))%Z in
    let q := (n / d)%Z in
    match (2 * (n mod d) ?= d)%Z with
    | Lt => q
    | Gt => (q + 1)%Z
    | Eq => if Z.even q then q else (q + 1)%Z
    end.

(** [round(x, 2)] for a finite [x >= 0]: the exact binary value of [x] is
    rounded to two decimals, ties to even, and the decimal result is read
    back as the nearest double. *)
Definition round2 (x : float) : float :=
  match Prim2SF x with
  | S754_finite false m e => (of_Z (hundredths m e) / 100)%float
  | _ => x
  end.

End PyFloat.

(* ================================================================= *)
(** ** clause_extractor.py: quality analysis and action *)

Module ClauseQuality.
Import PyStr PrimFloat.
#[local] Set Warnings "-inexact-float".

Fixpoint count_char (p : ascii -> bool) (s : string) : nat :=
  match s with
  | EmptyString => O
  | String c t => if p c then S (count_char p t) else count_char p t
  end.

(** A match of [[.!?]]. *)
Definition is_mark (c : ascii) : bool :=
  Ascii.eqb c "." || Ascii.eqb c "!" || Ascii.eqb c "?".

Record quality := Quality {
  q_length : nat;
  q_sentences : nat;
  quality_score : PrimFloat.float;
  warnings : list string
}.

Definition analyze_clause_quality (text : string) : quality :=
  let length := String.length text in
  let sentences := count_char is_mark text in
  let warnings := [] in
  let warnings :=
    if (length <? 50)%nat then (warnings ++ ["Clause is unusually short"])%list
    else warnings in
  let warnings :=
    if (1200 <? length)%nat
    then (warnings ++ ["Clause is unusually long (possible merge)"])%list
    else warnings in
  let warnings :=
    if (sentences =? 0)%nat
    then (warnings ++ ["No sentence structure detected"])%list
    else warnings in
  let quality_score :=
    PyFloat.py_max 0.4%float
      (PyFloat.py_min 1.0%float
         (PrimFloat.add
            (PrimFloat.div (PyFloat.of_nat sentences) 5%float)
            (PrimFloat.div (PyFloat.of_nat length) 800%float))) in
  Quality length sentences (PyFloat.round2 quality_score) warnings.

Definition decide_action (q : quality) : string :=
  match warnings q with
  | _ :: _ => "Review Required"
  | [] =>
      if PrimFloat.ltb (quality_score q) 0.6%float then "Rewrite Suggested"
      else "Looks Acceptable"
  end.

(** The ["quality"] and ["action"] entries that [extract_clauses] stores
    with a clause whose text is [text]. *)
Definition action_of_text (text : string) : string :=
  decide_action (analyze_clause_quality text).

End ClauseQuality.

(* ================================================================= *)
(** ** indian_law_checker.py *)

Module IndianLawChecker.
Import PyStr.

Definition non_compete_issue : string :=
  "Post-employment non-compete clauses are generally void under Section 27 of the Indian Contract Act.".
Definition wages_issue : string :=
  "Salary withholding may violate the Payment of Wages Act, 1936.".
Definition liability_issue : string :=
  "Unlimited liability without a cap may be legally risky and unenforceable.".

(** [contract_type] is [None] or a string. *)
Definition check_indian_law_issues (clause_text : string)
           (contract_type : option string) : list string :=
  match clause_text with
  | EmptyString => []
  | _ =>
      let text := lower clause_text in
      let ct := lower (match contract_type with
                       | Some s => s
                       | None => EmptyString
                       end) in
      let issues := [] in
      let issues :=
        if contains "non-compete" text || contains "non compete" text
        then (issues ++ [non_compete_issue])%list else issues in
      let issues :=
        if (ct =? "employment agreement")%string then
          if any_in ["withhold salary"; "stop payment";
                     "salary may be withheld"] text
          then (issues ++ [wages_issue])%list else issues
        else issues in
      let issues :=
        if any_in ["unlimited liability"; "no maximum limit"; "fully liable"]
             text
        then (issues ++ [liability_issue])%list else issues in
      issues
  end.

End IndianLawChecker.

(* ================================================================= *)
(** ** clause_rewriter.py *)

Module ClauseRewriter.
Import PyStr PrimFloat.
#[local] Set Warnings "-inexact-float".

Record templates := Templates {
  t_high : string;
  t_medium : string
}.

Definition general_templates : templates :=
  Templates
    "This clause should be revised to include objective standards, mutual obligations, and clearly defined limitations to prevent unilateral or unfair interpretation."
    "This clause should be clarified by replacing vague language with measurable and objective criteria.".

Definition REWRITE_TEMPLATES : list (string * templates) :=
  [ ("Termination",
     Templates
       "Either party may terminate this Agreement only after providing a minimum written notice of {notice_days} days. Termination shall be permitted solely for defined material breach or mutual agreement, ensuring fairness to both parties."
       "Termination rights under this clause should be clarified by specifying valid grounds for termination and an appropriate notice period.");
    ("Confidentiality",
     Templates
       "Confidential information shall be protected for a defined period of {years} years from the date of disclosure. Obligations shall apply only to information expressly identified as confidential."
       "Confidentiality obligations should clearly define the scope, exceptions, and duration of protection.");
    ("Compensation",
     Templates
       "All compensation payable under this Agreement shall be clearly specified, including amount, payment schedule, and mode of payment, to avoid ambiguity or dispute."
       "Payment terms should be clarified with defined timelines and amounts.");
    ("General", general_templates) ].

(** [d.get(k)] on a dict kept as an association list. *)
Fixpoint dict_get {V : Type} (k : string) (d : list (string * V)) : option V :=
  match d with
  | [] => None
  | (k', v) :: r => if (k =? k')%string then Some v else dict_get k r
  end.

(** [REWRITE_TEMPLATES.get(clause_type, REWRITE_TEMPLATES["General"])] *)
Definition templates_for (clause_type : string) : templates :=
  match dict_get clause_type REWRITE_TEMPLATES with
  | Some t => t
  | None => general_templates
  end.

(** [str(n)] *)
Definition decimal (n : Z) : string :=
  DecimalString.NilZero.string_of_int (Z.to_int n).

(** [s.format(notice_days=..., years=...)] for the templates above, whose
    only braces are those of the two replacement fields: text outside a
    field is copied, a field is replaced by the value of its name.  [field]
    holds the name read so far when the scan is inside a field. *)
Fixpoint format_from (field : option string) (notice_days years : Z)
         (s : string) : string :=
  match s with
  | EmptyString => EmptyString
  | String c t =>
      match field with
      | None =>
          if Ascii.eqb c "{" then format_from (Some EmptyString) notice_days years t
          else String c (format_from None notice_days years t)
      | Some name =>
          if Ascii.eqb c "}" then
            (if (name =? "notice_days")%string then decimal notice_days
             else if (name =? "years")%string then decimal years
             else EmptyString)
            ++ format_from None notice_days years t
          else
            format_from (Some (name ++ String c EmptyString)) notice_days
              years t
      end
  end.

Definition format (s : string) (notice_days years : Z) : string :=
  format_from None notice_days years s.

Record rewrite := Rewrite {
  rewritten_clause : string;
  rewrite_strategy : string;
  why_this_change : string;
  confidence : PrimFloat.float
}.

Definition no_change : rewrite :=
  Rewrite
    "This clause is acceptable and aligned with standard SME contracting practices. No immediate changes are required."
    "No Change"
    "Clause presents low legal risk."
    0.9%float.

Definition nonempty {A : Type} (l : list A) : bool :=
  match l with [] => false | _ :: _ => true end.

(** [rewrite_clause].  [ambiguity] and [law_issues] are the lists after
    [x or []]; [notice_days] and [years] are the values drawn by
    [random.choice([15, 30])] and [random.choice([2, 3, 5])]. *)
Definition rewrite_clause (clause_text risk_level clause_type : string)
           (ambiguity law_issues : list string) (notice_days years : Z)
  : rewrite :=
  let templates := templates_for clause_type in
  let finish (rewritten strategy : string) : rewrite :=
    let rewritten := format rewritten notice_days years in
    let rewritten :=
      if nonempty ambiguity then
        rewritten ++ " Vague expressions such as "
          ++ String.concat ", " ambiguity
          ++ " have been replaced with clear, measurable obligations."
      else rewritten in
    let rewritten :=
      if nonempty law_issues then
        rewritten
          ++ " This revision aligns the clause with generally accepted Indian legal principles to reduce enforceability risks."
      else rewritten in
    let confidence := 0.75%float in
    let confidence :=
      if (risk_level =? "High")%string then PrimFloat.add confidence 0.1%float
      else confidence in
    let confidence :=
      if nonempty ambiguity then PrimFloat.add confidence 0.05%float
      else confidence in
    let confidence :=
      if nonempty law_issues then PrimFloat.add confidence 0.05%float
      else confidence in
    let confidence := PyFloat.py_min confidence 0.95%float in
    Rewrite rewritten strategy
      ("The original clause posed legal risk due to "
         ++ (if nonempty ambiguity then "ambiguity" else "imbalance")
         ++ " and potential enforceability concerns.")
      (PyFloat.round2 confidence) in
  if (risk_level =? "High")%string then
    finish (t_high templates) "Risk Mitigation"
  else if (risk_level =? "Medium")%string then
    finish (t_medium templates) "Clarification"
  else no_change.

End ClauseRewriter.

(* ================================================================= *)
(** ** clause_explainer.py *)

Module ClauseExplainer.
Import PyStr.

Record explanation := Explanation {
  what_it_means : string;
  why_it_matters : string;
  risk_level : option string;
  favours : string;
  suggested_action : string
}.

(** [x or d] for an optional string [x]. *)
Definition or_else (x : option string) (d : string) : string :=
  match x with
  | None | Some EmptyString => d
  | Some s => s
  end.

Definition is_one_of (x : option string) (l : list string) : bool :=
  match x with
  | None => false
  | Some s => existsb (String.eqb s) l
  end.

(** [dict.update] with the keys a rule sets. *)
Definition set_texts (what why action : string) (e : explanation)
  : explanation :=
  Explanation what why (risk_level e) (favours e) action.
Definition set_favours (f : string) (e : explanation) : explanation :=
  Explanation (what_it_means e) (why_it_matters e) (risk_level e) f
    (suggested_action e).
Definition set_risk (r : string) (e : explanation) : explanation :=
  Explanation (what_it_means e) (why_it_matters e) (Some r) (favours e)
    (suggested_action e).

(** The rest of [s] after the literal [p], if [s] begins with it. *)
Fixpoint drop_prefix (p s : string) : option string :=
  match p with
  | EmptyString => Some s
  | String a p' =>
      match s with
      | EmptyString => None
      | String c t => if Ascii.eqb a c then drop_prefix p' t else None
      end
  end.

(** [re.search]: the pattern matches at some position of [s]. *)
Fixpoint search (at_head : string -> bool) (s : string) : bool :=
  at_head s ||
  match s with
  | EmptyString => false
  | String _ t => search at_head t
  end.

(** [between\s+mr] at the head of [s]. *)
Definition between_mr (s : string) : bool :=
  match drop_prefix "between" s with
  | None => false
  | Some r =>
      match r with
      | EmptyString => false
      | String c _ => isspace c && prefix "mr" (lstrip r)
      end
  end.

(** [page\s*\d] at the head of [s]. *)
Definition page_digit (s : string) : bool :=
  match drop_prefix "page" s with
  | None => false
  | Some r =>
      match lstrip r with
      | EmptyString => false
      | String d _ => isdigit d
      end
  end.

(** [hereinafter|between\s+mr|tenant|owner|residing at] *)
Definition names_parties (text : string) : bool :=
  contains "hereinafter" text || search between_mr text
  || contains "tenant" text || contains "owner" text
  || contains "residing at" text.

(** [stamp|signature|witness|seal|page\s*\d] *)
Definition administrative (text : string) : bool :=
  contains "stamp" text || contains "signature" text
  || contains "witness" text || contains "seal" text
  || search page_digit text.

Definition explain_clause_plain_english (clause_text clause_type
                                           forced_risk : option string)
  : explanation :=
  let text := lower (or_else clause_text "") in
  let clause_type := lower (or_else clause_type "General") in
  let explanation :=
    Explanation "" "" (Some (or_else forced_risk "Low")) "Neutral"
      "No immediate action required." in
  if any_in ["security"; "deposit"] clause_type then
    set_favours
      (if is_one_of forced_risk ["Medium"; "High"] then "Owner / Landlord"
       else "Neutral")
      (set_texts
         "This clause explains how the security deposit will be adjusted or refunded."
         "Vague deductions or undefined charges can result in unfair loss of deposit."
         "Specify exact deductions, timelines, and require proof of expenses."
         explanation)
  else if any_in ["payment"; "financial"; "salary"; "rent"] clause_type then
    set_favours
      (if is_one_of forced_risk ["High"] then "Owner / Employer"
       else "Neutral")
      (set_texts
         "This clause explains how and when payments must be made."
         "Unclear timelines, penalties, or deductions can create disputes or financial stress."
         "Ensure fixed payment dates, clear amounts, and transparent deductions."
         explanation)
  else if contains "termination" clause_type || contains "terminate" text then
    set_favours
      (if is_one_of forced_risk ["High"] then "Owner / Employer"
       else "Neutral")
      (set_texts
         "This clause explains when and how the agreement can be terminated."
         "Sudden or one-sided termination reduces legal and financial protection."
         "Ensure reasonable notice periods and fair termination conditions."
         explanation)
  else if any_in ["maintenance"; "handover"; "repair"] clause_type then
    set_texts
      "This clause sets responsibilities for maintaining and returning the premises."
      "Unclear handover standards may lead to disputes, especially over deposits."
      "Clearly define wear-and-tear versus chargeable damages."
      explanation
  else if any_in ["use"; "restriction"; "premises"] clause_type then
    set_texts
      "This clause restricts how the property or service may be used."
      "Overly broad restrictions may limit reasonable and lawful usage."
      "Ensure restrictions are reasonable, lawful, and clearly defined."
      explanation
  else if contains "non-compete" clause_type
          || contains "non compete" clause_type
          || contains "compete" text then
    set_favours "Employer"
      (set_risk "High"
         (set_texts
            "This clause restricts the employee from working in a similar business after employment ends."
            "Post-employment non-compete clauses are generally unenforceable in India under Section 27 of the Indian Contract Act."
            "Replace with narrowly scoped confidentiality or non-solicitation clauses instead of a blanket non-compete."
            explanation))
  else if names_parties text then
    set_texts
      "This clause identifies the parties to the agreement."
      "Incorrect names or addresses can affect legal enforceability."
      "Verify names, addresses, and identity details carefully."
      explanation
  else if administrative text then
    set_texts
      "This clause records execution or administrative details."
      "These confirm document validity but do not create obligations."
      "Verify stamps, dates, and signatures."
      explanation
  else
    let explanation :=
      set_texts
        "This clause provides general or supporting terms of the agreement."
        "It should not contradict or weaken higher-risk clauses."
        (suggested_action explanation) explanation in
    if contains "jurisdiction" clause_type || contains "court" text
       || contains "governing law" text then
      set_favours
        (if is_one_of forced_risk ["Medium"; "High"] then "Owner / Employer"
         else "Neutral")
        (set_texts
           "This clause decides which courts and laws will apply if a dispute arises."
           "Unclear or foreign jurisdiction can increase legal cost and complexity."
           "Ensure jurisdiction is clearly defined and convenient to both parties."
           explanation)
    else if contains "limitation" clause_type
            || contains "limit liability" text then
      set_favours "Party setting the limit"
        (set_texts
           "This clause limits how much one party can be held financially responsible."
           "Unlimited liability can expose a party to excessive financial risk."
           "Ensure liability caps are reasonable and proportionate."
           explanation)
    else if contains "indemnity" clause_type || contains "indemnify" text then
      set_favours "Benefiting party"
        (set_texts
           "This clause requires one party to compensate the other for certain losses."
           "Broad indemnities can create unpredictable financial exposure."
           "Limit indemnity to direct and foreseeable losses."
           explanation)
    else if contains "confidential" clause_type || contains "nda" text then
      set_favours "Disclosing party"
        (set_texts
           "This clause restricts sharing of sensitive or private information."
           "Overly long or strict confidentiality may be unenforceable."
           "Define scope, duration, and exclusions clearly."
           explanation)
    else if contains "intellectual" clause_type
            || contains "ip rights" text then
      set_favours "Party owning the IP"
        (set_texts
           "This clause defines ownership of ideas, work, or creations."
           "Unclear IP ownership can lead to future legal disputes."
           "Clearly specify ownership, usage rights, and transfer terms."
           explanation)
    else if (clause_type =? "Damages, Penalties & Deductions")%string then
      Explanation
        "The landlord may deduct amounts from the security deposit for rent arrears, utilities, or damages."
        "Without limits, proof, or timelines, deductions can be arbitrary and legally challenged."
        forced_risk
        "Landlord"
        "Add itemised deductions, reasonable limits, and a clear refund timeline."
    else explanation.

End ClauseExplainer.

(* ================================================================= *)
(** * Notions used in the statements *)

Module RiskNotions.
Import PyStr ClauseRisk.

(** [overlap k t]: a non-empty proper suffix of [k] is a prefix of [t], that
    is, an occurrence of [k] could end inside [t] after starting before it. *)
Fixpoint overlap (k t : string) : bool :=
  match k with
  | EmptyString => false
  | String _ k' =>
      (negb (k' =? "")%string && prefix k' t) || overlap k' t
  end.

(** [quiet ks t]: no keyword of [ks] occurs in [t] or can end inside [t]
    when [t] is appended to some text. *)
Definition quiet (ks : list string) (t : string) : bool :=
  forallb (fun k => negb (overlap k t) && negb (contains k t)) ks.

(** The classifier as a function of the lower-cased text. *)
Definition classify_text (text : string) : clause_type :=
  if any_in ["terminate"; "termination"] text then Termination
  else if any_in ["non-compete"; "non compete"; "shall not compete";
                  "restriction after termination"] text then NonCompete
  else if any_in ["confidential"; "non-disclosure";
                  "confidential information"] text then Confidentiality
  else if any_in ["salary"; "compensation"; "fees"; "payment";
                  "remuneration"] text then Compensation
  else if any_in ["indemnify"; "liability"; "damages"; "losses"] text
       then IndemnityLiability
  else if any_in ["arbitration"; "jurisdiction"; "governing law"] text
       then DisputeResolution
  else General.

(** The keyword lists of the first four rules of the classifier, and of the
    last two. *)
Definition early_keywords : list (list string) :=
  [ ["terminate"; "termination"];
    ["non-compete"; "non compete"; "shall not compete";
     "restriction after termination"];
    ["confidential"; "non-disclosure"; "confidential information"];
    ["salary"; "compensation"; "fees"; "payment"; "remuneration"] ].

Definition late_keywords : list (list string) :=
  [ ["indemnify"; "liability"; "damages"; "losses"];
    ["arbitration"; "jurisdiction"; "governing law"] ].

(** Points contributed by the type branch. *)
Definition type_points (ty : clause_type) (text : string) : Z :=
  match ty with
  | Termination =>
      20 + (if any_in ["without notice"; "immediate termination"] text
            then 30 else 0)
  | NonCompete => 35
  | Confidentiality =>
      10 + (if contains "forever" text || contains "in perpetuity" text
            then 15 else 0)
  | Compensation => if any_in currency_markers text then 5 else 25
  | IndemnityLiability => 30
  | DisputeResolution =>
      10 + (if contains "sole arbitrator appointed by" text then 20 else 0)
  | General => 5
  end.

(** Points of a cross-cutting rule: [n] when its test [b] holds. *)
Definition bonus (b : bool) (n : Z) : Z := if b then n else 0%Z.

End RiskNotions.

Module AmbiguityNotions.
Import PyStr AmbiguityDetector.

(** The lexicon entries whose phrase occurs in the lower-cased text. *)
Definition matched (clause_text : string) : list (string * term_meta) :=
  filter (fun item => contains (fst item) (lower clause_text)) AMBIGUOUS_TERMS.

(** The sum of the severities of lexicon entries. *)
Definition sum_severity (items : list (string * term_meta)) : Z :=
  fold_right (fun item acc => (severity (snd item) + acc)%Z) 0%Z items.

End AmbiguityNotions.

Module SegmentNotions.
Import PyStr ClauseExtractor.

(** The lines that the loop treats as clause body: trimmed, non-blank and
    not a heading, in document order. *)
Definition body_lines (lines : list string) : list string :=
  filter (fun l => negb (l =? "")%string && negb (_is_heading l))
         (map strip lines).

(** [k, k+1, ..., k+n-1] *)
Fixpoint count_from (k : Z) (n : nat) : list Z :=
  match n with
  | O => []
  | S m => k :: count_from (k + 1) m
  end.

(** Loop invariant: the clauses emitted so far are numbered 1, 2, ..., and
    the counter holds the next number. *)
Definition numbered_from_one (st : loop_state) : Prop :=
  map clause_id (st_clauses st) = count_from 1 (List.length (st_clauses st))
  /\ st_clause_id st = (1 + Z.of_nat (List.length (st_clauses st)))%Z.

(** [x] occurs in [s]. *)
Definition has_char (x : ascii) (s : string) : bool :=
  existsb_char (Ascii.eqb x) s.

(** [runs_below c lo n s]: every run of [c] in [s] is shorter than [lo],
    the first one counted together with [n] characters [c] before [s]. *)
Fixpoint runs_below (c : ascii) (lo n : nat) (s : string) : bool :=
  match s with
  | EmptyString => (n <? lo)%nat
  | String a t =>
      if Ascii.eqb a c then runs_below c lo (S n) t
      else (n <? lo)%nat && runs_below c lo 0 t
  end.

(** [s] does not begin with a whitespace character. *)
Definition starts_clean (s : string) : bool :=
  match s with
  | EmptyString => true
  | String a _ => negb (isspace a)
  end.

(** The fragments that a fallback keeps: trimmed, and of at least [n]
    characters. *)
Definition kept (n : nat) (fragments : list string) : list string :=
  filter (fun s => (n <=? length s)%nat) (map strip fragments).

(** One substitution [c{lo,}] by [keep] characters [c], on one run. *)
Definition cap (c : ascii) (lo keep : nat) (r : ascii * nat) : ascii * nat :=
  let (d, n) := r in
  if Ascii.eqb d c && (lo <=? n)%nat then (c, keep) else (d, n).

(** A list of runs in which no run is empty and neighbours differ. *)
Fixpoint maximal (l : list (ascii * nat)) : Prop :=
  match l with
  | [] => True
  | (c, n) :: r =>
      (1 <= n)%nat /\
      match r with
      | (d, _) :: _ => c <> d
      | [] => True
      end /\
      maximal r
  end.

(** The text after the four substitutions of [clean_text], before the
    final [strip]. *)
Definition collapsed (text : string) : string :=
  sub_runs space 2 1 0
    (sub_runs nl 3 2 0 (replace_char cr nl (replace_char tab space text))).

End SegmentNotions.

Module TierNotions.
Import AmbiguityDetector.

(** The tier that [analyze_ambiguity] assigns to a severity score. *)
Definition tier (s : Z) : risk_level :=
  if (s >=? 6)%Z then High else if (s >=? 3)%Z then Medium else Low.

End TierNotions.

Module ShapeNotions.
Import PyStr ClauseExtractor.

(** A non-empty text without leading or trailing whitespace. *)
Definition line_ok (l : string) : Prop :=
  l <> "" /\ lstrip l = l /\ rstrip l = l.

(** What the provenance tag of a clause says about its other fields. *)
Definition source_ok (c : clause) : Prop :=
  match source c with
  | src_heading => exists h, title c = Some h /\ _is_heading h = true
  | src_numbered => title c = None /\ number_pattern_match (text c) = true
  | src_paragraph => title c = None /\ clause_id c = 1%Z
  | src_sentence_split => title c = None /\ (40 <= length (text c))%nat
  | src_ocr_fallback => title c = None /\ (25 <= length (text c))%nat
  end.

Definition clause_wf (c : clause) : Prop := line_ok (text c) /\ source_ok c.

(** The tags that the line loop assigns. *)
Definition from_loop (c : clause) : Prop :=
  source c <> src_sentence_split /\ source c <> src_ocr_fallback.

(** Invariant of the line loop. *)
Definition loop_wf (st : loop_state) : Prop :=
  Forall (fun c => clause_wf c /\ from_loop c) (st_clauses st) /\
  Forall line_ok (st_current st) /\
  match st_source st with
  | src_heading => exists h, st_title st = Some h /\ _is_heading h = true
  | src_numbered =>
      st_title st = None /\
      exists l rest, st_current st = l :: rest /\
                     number_pattern_match l = true
  | src_paragraph => st_title st = None /\ st_clause_id st = 1%Z
  | _ => False
  end.

(** [ascending lo ids]: strictly increasing integers, none below [lo]. *)
Fixpoint ascending (lo : Z) (ids : list Z) : Prop :=
  match ids with
  | [] => True
  | x :: r => (lo <= x)%Z /\ ascending (x + 1) r
  end.

(** The characters of [s] that are not whitespace, in order. *)
Fixpoint visible (s : string) : string :=
  match s with
  | EmptyString => EmptyString
  | String c t => if isspace c then visible t else String c (visible t)
  end.

(** Two sample documents: a lease with an opening line, a heading and a
    numbered item, and an employment paragraph of three sentences. *)
Definition sample_lease : string :=
  "This lease is made at Chennai.
RENT AND DEPOSIT
The tenant shall pay the monthly rent in advance.
1. The security deposit is refundable
   at the end of the lease.

Signed by both parties.".

(** Four sentences on four lines, one of them short. *)
Definition sample_tenancy : string :=
  "The tenant shall keep the premises clean.
Rent is due.
The landlord may inspect the premises monthly.
The deposit is refundable at the end of the lease.".

(** Two sentences on two lines. *)
Definition sample_receipt : string :=
  "The tenant shall pay the rent monthly.
The landlord shall give a receipt.".

(** Two numbered items with a heading between them. *)
Definition sample_items : string :=
  "1. The tenant shall pay rent monthly.
SECTION ONE
2. The tenant shall keep the premises clean.".

Definition sample_employment : string :=
  "The employee shall report to the office at nine every working day. The employee shall keep all company records strictly confidential. The employee shall return all company property upon leaving.".

End ShapeNotions.

(** The contract of the normalizer as its description words it, on the
    maximal runs of equal characters of the text: every tab becomes a space
    and every carriage return a newline; then a run of three or more
    newlines is cut to two and a run of two or more spaces to one, every
    other run staying as it is. *)
Module NormalizerSpec.
Import PyStr.

Definition convert (c : ascii) : ascii :=
  if Ascii.eqb c tab then space
  else if Ascii.eqb c cr then nl
  else c.

Fixpoint convert_all (s : string) : string :=
  match s with
  | EmptyString => EmptyString
  | String c t => String (convert c) (convert_all t)
  end.

(** The maximal runs of [s], in order: character and length. *)
Fixpoint runs (s : string) : list (ascii * nat) :=
  match s with
  | EmptyString => []
  | String c t =>
      match runs t with
      | (d, n) :: r =>
          if Ascii.eqb c d then (d, S n) :: r else (c, 1%nat) :: (d, n) :: r
      | [] => [(c, 1%nat)]
      end
  end.

Fixpoint unruns (l : list (ascii * nat)) : string :=
  match l with
  | [] => EmptyString
  | (c, n) :: r => repeat_char c n ++ unruns r
  end.

Definition collapse (r : ascii * nat) : ascii * nat :=
  let (c, n) := r in
  if Ascii.eqb c nl && (3 <=? n)%nat then (nl, 2%nat)
  else if Ascii.eqb c space && (2 <=? n)%nat then (space, 1%nat)
  else (c, n).

(** The text converted and collapsed, not yet trimmed. *)
Definition squeezed (t : string) : string :=
  unruns (map collapse (runs (convert_all t))).

(** Whitespace only. *)
Fixpoint blank (s : string) : bool :=
  match s with
  | EmptyString => true
  | String c t => isspace c && blank t
  end.

End NormalizerSpec.

(* ================================================================= *)
(** * Properties *)

Import PyStr.

(* ----------------------------------------------------------------- *)
(** ** Substrings and concatenation *)

(** Case analysis on every condition of an [if] in the goal. *)
Ltac case_conditions :=
  repeat match goal with
         | |- context [if ?b then _ else _] => destruct b
         end.

Module StringFacts.
Import RiskNotions.

Lemma lower_app (s t : string) : lower (s ++ t) = lower s ++ lower t.
Proof.
  induction s as [|c s IH]; simpl; [reflexivity | now rewrite IH].
Qed.

Lemma prefix_nil_l (s : string) : prefix "" s = true.
Proof. destruct s; reflexivity. Qed.

Lemma prefix_app_l (k s t : string) :
  prefix k s = true -> prefix k (s ++ t) = true.
Proof.
  revert k; induction s as [|c s IH]; intros [|a k]; simpl; auto.
  - intros _. apply prefix_nil_l.
  - discriminate.
  - destruct (ascii_dec a c); [apply IH | discriminate].
Qed.

Lemma contains_app_l (k s t : string) :
  contains k s = true -> contains k (s ++ t) = true.
Proof.
  induction s as [|c s IH].
  - simpl. rewrite orb_false_r. intros H.
    destruct k; [|discriminate]. destruct t; reflexivity.
  - cbn [contains append]. intros H. apply orb_true_iff in H as [H|H].
    + apply orb_true_iff. left.
      change (String c (s ++ t)) with (String c s ++ t).
      now apply prefix_app_l.
    + apply orb_true_iff. right. auto.
Qed.

Lemma contains_app_r (k s t : string) :
  contains k t = true -> contains k (s ++ t) = true.
Proof.
  intros H. induction s as [|c s IH]; [exact H|].
  cbn [contains append]. rewrite IH. apply orb_true_r.
Qed.

Lemma prefix_app_split (k u t : string) :
  prefix k (u ++ t) = true ->
  prefix k u = true \/
  exists k2, k = u ++ k2 /\ k2 <> "" /\ prefix k2 t = true.
Proof.
  revert k; induction u as [|c u IH]; intros k H.
  - destruct k as [|a k]; [left; reflexivity|].
    right. exists (String a k). repeat split; [discriminate | exact H].
  - destruct k as [|a k]; [left; reflexivity|].
    cbn [append prefix] in *.
    destruct (ascii_dec a c) as [->|]; [|discriminate].
    destruct (IH _ H) as [Hp | (k2 & -> & Hne & Hp)]; [now left|].
    right. exists k2. repeat split; assumption.
Qed.

Lemma overlap_intro (u k2 t : string) :
  u <> "" -> k2 <> "" -> prefix k2 t = true -> overlap (u ++ k2) t = true.
Proof.
  induction u as [|c u IH]; intros Hu Hk Hp; [congruence|].
  cbn [append overlap]. destruct u as [|c' u].
  - cbn [append]. apply orb_true_iff. left.
    rewrite Hp. destruct k2; [congruence | reflexivity].
  - apply orb_true_iff. right. apply IH; [discriminate | assumption..].
Qed.

Lemma contains_app_inv (k s t : string) :
  contains k (s ++ t) = true ->
  contains k s = true \/ contains k t = true \/ overlap k t = true.
Proof.
  induction s as [|c s IH]; intros H; [right; left; exact H|].
  cbn [contains append] in H. apply orb_true_iff in H as [H|H].
  - change (String c (s ++ t)) with (String c s ++ t) in H.
    apply prefix_app_split in H as [H | (k2 & -> & Hne & Hp)].
    + left. cbn [contains]. now rewrite H.
    + right. right. apply overlap_intro; [discriminate | assumption..].
  - destruct (IH H) as [H1|H1]; [|now right].
    left. cbn [contains]. rewrite H1. apply orb_true_r.
Qed.

(** When no occurrence of [k] can straddle the join, [k in s + t] is decided
    by the two halves. *)
Lemma contains_app_exact (k s t : string) :
  overlap k t = false ->
  contains k (s ++ t) = contains k s || contains k t.
Proof.
  intros Ho. destruct (contains k (s ++ t)) eqn:E.
  - apply contains_app_inv in E as [E|[E|E]].
    + now rewrite E.
    + rewrite E. now rewrite orb_true_r.
    + congruence.
  - symmetry. apply orb_false_iff. split.
    + destruct (contains k s) eqn:E1; [|reflexivity].
      now rewrite (contains_app_l _ _ t E1) in E.
    + destruct (contains k t) eqn:E1; [|reflexivity].
      now rewrite (contains_app_r _ s _ E1) in E.
Qed.

Lemma any_in_app_exact (ks : list string) (s t : string) :
  forallb (fun k => negb (overlap k t)) ks = true ->
  any_in ks (s ++ t) = any_in ks s || any_in ks t.
Proof.
  unfold any_in. induction ks as [|k ks IH]; cbn [forallb existsb]; intros H.
  - reflexivity.
  - apply andb_true_iff in H as [H1 H2]. apply negb_true_iff in H1.
    rewrite (contains_app_exact _ _ _ H1), (IH H2).
    destruct (contains k s), (contains k t); simpl;
      rewrite ?orb_true_r; reflexivity.
Qed.

End StringFacts.

(* ----------------------------------------------------------------- *)
(** ** Risk scorer *)

Module RiskFacts.
Import ClauseRisk RiskNotions StringFacts.

Lemma score_type_rules (ty : clause_type) (text : string) (st : scoring) :
  score (type_rules ty text st) = (score st + type_points ty text)%Z.
Proof.
  destruct ty; unfold type_rules, type_points;
    try destruct (any_in currency_markers text); cbn [negb];
    case_conditions;
    cbn [score add_score add_reason add_suggestion add_tag negb]; lia.
Qed.

Lemma score_ambiguity_penalty (text : string) (st : scoring) :
  score (ambiguity_penalty text st)
  = (score st + bonus (any_in ambiguity_terms text) 10)%Z.
Proof.
  unfold ambiguity_penalty, bonus.
  destruct (any_in ambiguity_terms text);
    cbn [score add_score add_reason add_suggestion add_tag]; lia.
Qed.

Lemma score_red_flag_boost (text : string) (st : scoring) :
  score (red_flag_boost text st)
  = (score st + bonus (any_in critical_red_flags text) 20)%Z.
Proof.
  unfold red_flag_boost, bonus.
  destruct (any_in critical_red_flags text);
    cbn [score add_score add_reason add_suggestion add_tag]; lia.
Qed.

(** The score as a sum: type points, ambiguity penalty, red-flag boost. *)
Lemma score_scored (clause : string) :
  score (scored clause)
  = (type_points (classify_clause clause) (lower clause)
     + bonus (any_in ambiguity_terms (lower clause)) 10
     + bonus (any_in critical_red_flags (lower clause)) 20)%Z.
Proof.
  unfold scored.
  rewrite score_red_flag_boost, score_ambiguity_penalty, score_type_rules.
  reflexivity.
Qed.

Lemma ra_score_eq (clause : string) :
  ra_score (assess_risk clause) = score (scored clause).
Proof. unfold assess_risk. now destruct (final_level _). Qed.

(** The score is one of finitely many values. *)
Lemma score_values (clause : string) :
  In (score (scored clause))
     [5; 10; 15; 20; 25; 30; 35; 40; 45; 50; 55; 60; 65; 70; 80]%Z.
Proof.
  rewrite score_scored. unfold type_points, bonus.
  destruct (classify_clause clause); case_conditions; cbn; tauto.
Qed.

Lemma ra_confidence_eq (clause : string) :
  ra_confidence (assess_risk clause)
  = round2 (raw_confidence (score (scored clause))).
Proof. unfold assess_risk. now destruct (final_level _). Qed.

Lemma ra_levels_eq (clause : string) :
  (ra_risk_level (assess_risk clause),
   ra_negotiation_priority (assess_risk clause))
  = final_level (score (scored clause)).
Proof. unfold assess_risk. now destruct (final_level _). Qed.

Lemma ra_suggestions_eq (clause : string) :
  ra_suggestions (assess_risk clause)
  = match suggestions (scored clause) with
    | [] => ["No immediate action required."]
    | l => l
    end.
Proof. unfold assess_risk. now destruct (final_level _). Qed.

(** C4: the clause "The company may terminate this agreement at any time
    without notice." is classified as Termination, scores 20 + 30 + 20 = 70
    (so at least 70), and is rated High with priority Immediate. *)
Theorem C4_terminate_without_notice :
  let r := assess_risk
             "The company may terminate this agreement at any time without notice." in
  type_label (ra_type r) = "Termination" /\
  (ra_score r >= 20 + 30 + 20)%Z /\
  risk_label (ra_risk_level r) = "High" /\
  priority_label (ra_negotiation_priority r) = "Immediate".
Proof.
  cbv zeta. repeat split; vm_compute; congruence.
Qed.

(** C5 as stated fails on the confidence field: the record holds the value
    rounded to two decimals.  For the empty clause the score is 5, the
    unrounded value is 0.6 + 5/120 = 77/120 and the record holds 0.64. *)
Lemma C5_confidence_is_rounded :
  ra_score (assess_risk "") = 5%Z /\
  ra_confidence (assess_risk "") == 64 # 100 /\
  ~ ra_confidence (assess_risk "")
    == Qmin (95 # 100) ((6 # 10) + inject_Z (ra_score (assess_risk "")) / 120).
Proof.
  repeat split; vm_compute; congruence.
Qed.

(** C5 (amended): the tier and the negotiation priority are determined by
    the final score (at least 60: High / Immediate; from 30 to 59: Medium /
    Recommended; below 30: Low / Optional), and the confidence field is
    min(0.95, 0.6 + score/120) rounded to two decimals, a value between 0.6
    and 0.95. *)
Theorem C5_tier_and_confidence (clause : string) :
  let r := assess_risk clause in
  ((ra_score r >= 60)%Z ->
     ra_risk_level r = High /\ ra_negotiation_priority r = Immediate) /\
  ((30 <= ra_score r < 60)%Z ->
     ra_risk_level r = Medium /\ ra_negotiation_priority r = Recommended) /\
  ((ra_score r < 30)%Z ->
     ra_risk_level r = Low /\ ra_negotiation_priority r = Optional) /\
  ra_confidence r
    == round2 (Qmin (95 # 100) ((6 # 10) + inject_Z (ra_score r) / 120)) /\
  (6 # 10) <= ra_confidence r /\ ra_confidence r <= (95 # 100).
Proof.
  cbv zeta.
  pose proof (ra_levels_eq clause) as HL.
  rewrite ra_score_eq, ra_confidence_eq.
  destruct (ra_risk_level _), (ra_negotiation_priority _);
    unfold final_level in HL;
    destruct (Z.geb_spec (score (scored clause)) 60);
    try destruct (Z.geb_spec (score (scored clause)) 30);
    try discriminate HL;
    (repeat split; try lia; try reflexivity);
    pose proof (score_values clause) as HV; cbn [In] in HV;
    repeat (destruct HV as [<- | HV]; [vm_compute; discriminate|]);
    contradiction.
Qed.

Lemma C5_tier_and_confidence_witness :
  ra_risk_level
    (assess_risk
       "The company may terminate this agreement at any time without notice.")
  = High /\
  ra_negotiation_priority
    (assess_risk
       "The company may terminate this agreement at any time without notice.")
  = Immediate.
Proof.
  apply (proj1 (C5_tier_and_confidence
     "The company may terminate this agreement at any time without notice.")).
  vm_compute. discriminate.
Defined.

(** C10: the suggestions of the returned record are never empty; when the
    scoring rules appended none, the record carries the single entry
    "No immediate action required.", and otherwise the appended ones. *)
Theorem C10_suggestions_nonempty (clause : string) :
  ra_suggestions (assess_risk clause) <> [] /\
  (suggestions (scored clause) = [] ->
   ra_suggestions (assess_risk clause) = ["No immediate action required."]) /\
  (suggestions (scored clause) <> [] ->
   ra_suggestions (assess_risk clause) = suggestions (scored clause)).
Proof.
  rewrite ra_suggestions_eq.
  destruct (suggestions (scored clause)) as [|x l]; repeat split;
    congruence.
Qed.

Lemma C10_suggestions_nonempty_witness :
  ra_suggestions (assess_risk "The parties shall meet monthly.")
  = ["No immediate action required."].
Proof.
  apply (proj1 (proj2 (C10_suggestions_nonempty
                         "The parties shall meet monthly."))).
  vm_compute. reflexivity.
Defined.

(* ----------------------------------------------------------------- *)
(** ** Monotonicity of the score under an appended red-flag phrase *)

Lemma classify_clause_lower (clause : string) :
  classify_clause clause = classify_text (lower clause).
Proof. reflexivity. Qed.

Lemma any_in_app_quiet (ks : list string) (s t : string) :
  quiet ks t = true -> any_in ks (s ++ t) = any_in ks s.
Proof.
  unfold quiet, any_in.
  induction ks as [|k ks IH]; cbn [forallb existsb]; intros H;
    [reflexivity|].
  apply andb_true_iff in H as [H1 H2]. apply andb_true_iff in H1 as [Ho Hc].
  apply negb_true_iff in Ho, Hc.
  rewrite (contains_app_exact _ _ _ Ho), Hc, orb_false_r, (IH H2).
  reflexivity.
Qed.

Lemma any_in_app_l (ks : list string) (s t : string) :
  any_in ks s = true -> any_in ks (s ++ t) = true.
Proof.
  unfold any_in. rewrite !existsb_exists.
  intros (k & Hin & Hk). exists k. split; [assumption|].
  now apply contains_app_l.
Qed.

Lemma any_in_app_r (ks : list string) (s t : string) :
  any_in ks t = true -> any_in ks (s ++ t) = true.
Proof.
  unfold any_in. rewrite !existsb_exists.
  intros (k & Hin & Hk). exists k. split; [assumption|].
  now apply contains_app_r.
Qed.

Lemma bonus_app_l (ks : list string) (s t : string) (n : Z) :
  (0 <= n)%Z ->
  (bonus (any_in ks s) n <= bonus (any_in ks (s ++ t)) n)%Z.
Proof.
  intros Hn. destruct (any_in ks s) eqn:E.
  - rewrite (any_in_app_l _ _ t E). lia.
  - unfold bonus. destruct (any_in ks (s ++ t)); lia.
Qed.

(** With the type and the currency test unchanged, a longer text earns at
    least as many type points. *)
Lemma type_points_app (ty : clause_type) (s t : string) :
  any_in currency_markers (s ++ t) = any_in currency_markers s ->
  (type_points ty s <= type_points ty (s ++ t))%Z.
Proof.
  intros Hc. destruct ty; unfold type_points; try lia.
  - pose proof (bonus_app_l ["without notice"; "immediate termination"]
                  s t 30) as H. unfold bonus in H. lia.
  - destruct (contains "forever" s || contains "in perpetuity" s) eqn:E.
    + apply orb_true_iff in E as [E|E];
        rewrite (contains_app_l _ _ t E), ?orb_true_r; cbn; lia.
    + destruct (contains "forever" (s ++ t) || _); lia.
  - rewrite Hc. lia.
  - destruct (contains "sole arbitrator appointed by" s) eqn:E.
    + rewrite (contains_app_l _ _ t E). lia.
    + destruct (contains _ (s ++ t)); cbv iota; lia.
Qed.

Lemma type_points_bounds (ty : clause_type) (s : string) :
  (5 <= type_points ty s <= 50)%Z.
Proof.
  destruct ty; unfold type_points; case_conditions; lia.
Qed.

(** Appending [t] leaves the classification alone when no classifier
    keyword can be completed by [t]. *)
Lemma classify_text_app_quiet (s t : string) :
  forallb (fun ks => quiet ks t) (early_keywords ++ late_keywords) = true ->
  classify_text (s ++ t) = classify_text s.
Proof.
  cbn [forallb early_keywords late_keywords app]. intros H.
  repeat (apply andb_true_iff in H as [?H H]).
  unfold classify_text.
  rewrite !any_in_app_quiet by assumption. reflexivity.
Qed.

(** Appending a [t] that contains an indemnity keyword, and completes no
    keyword of the four earlier rules, either keeps the type or moves a
    Dispute Resolution or General clause to Indemnity & Liability. *)
Lemma classify_text_app_indemnity (s t : string) :
  forallb (fun ks => quiet ks t) early_keywords = true ->
  any_in ["indemnify"; "liability"; "damages"; "losses"] t = true ->
  classify_text (s ++ t) = classify_text s \/
  (classify_text (s ++ t) = IndemnityLiability /\
   (classify_text s = DisputeResolution \/ classify_text s = General)).
Proof.
  cbn [forallb early_keywords]. intros H Hi.
  repeat (apply andb_true_iff in H as [?H H]).
  unfold classify_text.
  rewrite !any_in_app_quiet by assumption.
  rewrite (any_in_app_r _ s t Hi).
  case_conditions; auto.
Qed.

(** The score never decreases when the text grows by [t], provided [t]
    contains a red flag, completes no currency marker, and either leaves the
    classification alone or turns it into Indemnity & Liability as above. *)
Lemma score_app_mono (s t : string) :
  any_in critical_red_flags t = true ->
  quiet currency_markers t = true ->
  (classify_text (s ++ t) = classify_text s \/
   (classify_text (s ++ t) = IndemnityLiability /\
    (classify_text s = DisputeResolution \/ classify_text s = General))) ->
  (type_points (classify_text s) s
   + bonus (any_in ambiguity_terms s) 10
   + bonus (any_in critical_red_flags s) 20
   <= type_points (classify_text (s ++ t)) (s ++ t)
      + bonus (any_in ambiguity_terms (s ++ t)) 10
      + bonus (any_in critical_red_flags (s ++ t)) 20)%Z.
Proof.
  intros Hred Hcur Hty.
  pose proof (bonus_app_l ambiguity_terms s t 10 ltac:(lia)) as Ha.
  rewrite (any_in_app_r _ s t Hred).
  assert (Hr : (bonus (any_in critical_red_flags s) 20 <= bonus true 20)%Z)
    by (unfold bonus; destruct (any_in critical_red_flags s); lia).
  destruct Hty as [-> | [-> Hold]].
  - pose proof (type_points_app (classify_text s) s t
                  (any_in_app_quiet _ _ _ Hcur)). lia.
  - assert (type_points (classify_text s) s <= 30)%Z.
    { destruct Hold as [-> | ->]; unfold type_points;
        try destruct (contains _ s); lia. }
    unfold type_points at 2. lia.
Qed.

(** C6 as stated fails: an appended phrase can complete a keyword that the
    clause text leaves unfinished.  "Liability is capped at $500 per fee" is
    an Indemnity & Liability clause scoring 30; with "sole discretion"
    appended the text contains "fees", becomes a Compensation clause with a
    currency marker (5 points) and scores 5 + 20 = 25. *)
Lemma C6_appending_can_lower_score :
  In "sole discretion" critical_red_flags /\
  ra_score (assess_risk "Liability is capped at $500 per fee") = 30%Z /\
  ra_score (assess_risk ("Liability is capped at $500 per fee"
                         ++ "sole discretion")) = 25%Z /\
  ~ (ra_score (assess_risk "Liability is capped at $500 per fee")
     <= ra_score (assess_risk ("Liability is capped at $500 per fee"
                               ++ "sole discretion")))%Z.
Proof.
  repeat split; [cbn; tauto | vm_compute; congruence ..].
Qed.

(** C6 (amended): for every clause text and every critical red-flag phrase,
    appending the phrase after a separating space never decreases the score
    returned by assess_risk (the type may still change, when the phrase is
    "unlimited liability"). *)
Theorem C6_red_flag_monotone (clause flag : string) :
  In flag critical_red_flags ->
  (ra_score (assess_risk clause)
   <= ra_score (assess_risk (clause ++ " " ++ flag)))%Z.
Proof.
  intros Hin. rewrite !ra_score_eq, !score_scored, !classify_clause_lower.
  rewrite lower_app.
  cbn [critical_red_flags In] in Hin.
  repeat destruct Hin as [<- | Hin]; try contradiction;
    match goal with
    | |- context [lower ?t] =>
        match t with
        | append _ _ =>
            let v := eval vm_compute in (lower t) in
            change (lower t) with v
        end
    end;
    apply score_app_mono; try reflexivity;
    first [ left; apply classify_text_app_quiet; reflexivity
          | apply classify_text_app_indemnity; reflexivity ].
Qed.

Lemma C6_red_flag_monotone_witness :
  In "sole discretion" critical_red_flags /\
  (ra_score (assess_risk "Liability is capped at $500 per fee")
   <= ra_score
        (assess_risk
           ("Liability is capped at $500 per fee" ++ " " ++ "sole discretion")))%Z.
Proof.
  split; [cbn; tauto|].
  apply (C6_red_flag_monotone "Liability is capped at $500 per fee"
           "sole discretion").
  cbn. tauto.
Defined.

End RiskFacts.

(* ----------------------------------------------------------------- *)
(** ** Ambiguity detector *)

Module AmbiguityFacts.
Import AmbiguityDetector AmbiguityNotions.

Lemma scan_fold (text : string) (items : list (string * term_meta))
      (st : scan) :
  let hits := filter (fun item => contains (fst item) text) items in
  let st' := fold_left (scan_item text) items st in
  found st' = (found st ++ map fst hits)%list /\
  severity_score st' = (severity_score st + sum_severity hits)%Z /\
  suggestions st'
  = (suggestions st ++ map (fun i => suggestion (snd i)) hits)%list.
Proof.
  revert st. induction items as [|[term meta] items IH]; intros st; cbn zeta.
  - cbn. rewrite !app_nil_r. repeat split; lia.
  - cbn [fold_left filter fst].
    change (scan_item text st (term, meta))
      with (if contains term text
            then Scan (found st ++ [term])%list
                      (severity_score st + severity meta)
                      (set_add (category meta) (categories st))
                      (suggestions st ++ [suggestion meta])%list
            else st).
    destruct (contains term text); [|apply IH].
    match goal with
    | |- context [fold_left _ _ ?st0] =>
        destruct (IH st0) as (H1 & H2 & H3)
    end.
    cbv zeta in H1, H2, H3. rewrite H1, H2, H3.
    cbn [found severity_score suggestions map fst snd sum_severity fold_right].
    rewrite <- !app_assoc. repeat split; try reflexivity.
    fold (sum_severity (filter (fun item => contains (fst item) text) items)).
    lia.
Qed.

Lemma set_add_spec (x y : string) (s : list string) :
  In y (set_add x s) <-> y = x \/ In y s.
Proof.
  unfold set_add. destruct (existsb (String.eqb x) s) eqn:E.
  - split; [tauto|]. intros [->|H]; [|exact H].
    apply existsb_exists in E as (z & Hz & Heq).
    apply String.eqb_eq in Heq. now subst.
  - rewrite in_app_iff. cbn. intuition congruence.
Qed.

Lemma set_add_nodup (x : string) (s : list string) :
  NoDup s -> NoDup (set_add x s).
Proof.
  intros H. unfold set_add. destruct (existsb (String.eqb x) s) eqn:E;
    [exact H|].
  apply NoDup_rev in H. rewrite <- (rev_involutive (s ++ [x])%list).
  apply NoDup_rev. rewrite rev_app_distr. cbn. constructor; [|exact H].
  rewrite <- in_rev. intros Hin.
  assert (existsb (String.eqb x) s = true); [|congruence].
  apply existsb_exists. exists x. split; [exact Hin | apply String.eqb_refl].
Qed.

Lemma set_of_list_spec (l : list string) :
  NoDup (set_of_list l) /\ forall x, In x (set_of_list l) <-> In x l.
Proof.
  unfold set_of_list.
  enough (G : forall acc, NoDup acc ->
                NoDup (fold_left (fun s x => set_add x s) l acc) /\
                forall x, In x (fold_left (fun s x => set_add x s) l acc)
                          <-> In x acc \/ In x l).
  { destruct (G [] (NoDup_nil _)) as [H1 H2]. split; [exact H1|].
    intros x. rewrite H2. cbn. tauto. }
  induction l as [|a l IH]; intros acc Hacc; cbn [fold_left].
  - split; [exact Hacc|]. cbn. tauto.
  - destruct (IH (set_add a acc) (set_add_nodup a acc Hacc)) as [H1 H2].
    split; [exact H1|]. intros x. rewrite H2, set_add_spec. cbn.
    intuition congruence.
Qed.

Lemma map_fst_filter {A B : Type} (p : A -> bool) (l : list (A * B)) :
  map fst (filter (fun item => p (fst item)) l) = filter p (map fst l).
Proof.
  induction l as [|[a b] l IH]; [reflexivity|].
  cbn [map filter fst]. destruct (p a); cbn [map fst]; now rewrite IH.
Qed.

Lemma contains_empty (k : string) : k <> "" -> contains k "" = false.
Proof. destruct k; [congruence | reflexivity]. Qed.

Lemma matched_empty : matched "" = [].
Proof. reflexivity. Qed.

(** C9: detect_ambiguity returns exactly the lexicon phrases that occur in
    the lower-cased clause text (on the example sentence these include "best
    efforts" and "commercially reasonable"); analyze_ambiguity reports the
    same phrases, the sum of their severities, the tier High from 6, Medium
    from 3 and Low below, and the suggestions of the matched phrases without
    duplicates. *)
Theorem C9_ambiguity (clause_text : string) :
  (forall term,
     In term (detect_ambiguity clause_text) <->
     In term (map fst AMBIGUOUS_TERMS) /\
     contains term (lower clause_text) = true) /\
  (In "best efforts"
      (detect_ambiguity
         "The Supplier shall use best efforts and act in a commercially reasonable manner.") /\
   In "commercially reasonable"
      (detect_ambiguity
         "The Supplier shall use best efforts and act in a commercially reasonable manner.")) /\
  let a := analyze_ambiguity clause_text in
  aa_found_terms a = detect_ambiguity clause_text /\
  aa_found_terms a = map fst (matched clause_text) /\
  aa_severity_score a = sum_severity (matched clause_text) /\
  ((aa_severity_score a >= 6)%Z -> aa_risk_level a = High) /\
  ((3 <= aa_severity_score a < 6)%Z -> aa_risk_level a = Medium) /\
  ((aa_severity_score a < 3)%Z -> aa_risk_level a = Low) /\
  NoDup (aa_suggestions a) /\
  (forall x, In x (aa_suggestions a) <->
             exists item, In item (matched clause_text) /\
                          suggestion (snd item) = x).
Proof.
  split; [|split].
  - intros term. destruct clause_text as [|c s].
    + cbn [detect_ambiguity lower]. split; [contradiction|].
      intros [Hin Hc]. cbn in Hin.
      repeat (destruct Hin as [<- | Hin]; [discriminate Hc|]).
      contradiction.
    + unfold detect_ambiguity. cbv zeta. rewrite filter_In. reflexivity.
  - split; vm_compute; tauto.
  - cbv zeta. destruct clause_text as [|c s].
    + cbn. repeat split; try lia; try constructor; try contradiction.
      intros (item & [] & _).
    + set (t := String c s). unfold analyze_ambiguity, detect_ambiguity.
      subst t. cbv zeta.
      destruct (scan_fold (lower (String c s)) AMBIGUOUS_TERMS
                  (Scan [] 0 [] [])) as (H1 & H2 & H3).
      cbv zeta in H1, H2, H3. cbn [found severity_score suggestions] in *.
      rewrite app_nil_l in H1, H3. rewrite Z.add_0_l in H2.
      fold (matched (String c s)) in H1, H2, H3.
      cbn [aa_found_terms aa_severity_score aa_risk_level aa_suggestions].
      destruct (set_of_list_spec
                  (suggestions
                     (fold_left (scan_item (lower (String c s)))
                        AMBIGUOUS_TERMS (Scan [] 0 [] [])))) as [Hnd Hin].
      repeat split.
      * rewrite H1. unfold matched.
        exact (map_fst_filter
                 (fun term => contains term (lower (String c s))) _).
      * exact H1.
      * exact H2.
      * intros H. destruct (Z.geb_spec (severity_score
           (fold_left (scan_item (lower (String c s))) AMBIGUOUS_TERMS
              (Scan [] 0 [] []))) 6); [reflexivity | lia].
      * intros H. destruct (Z.geb_spec (severity_score
           (fold_left (scan_item (lower (String c s))) AMBIGUOUS_TERMS
              (Scan [] 0 [] []))) 6); [lia|].
        destruct (Z.geb_spec (severity_score
           (fold_left (scan_item (lower (String c s))) AMBIGUOUS_TERMS
              (Scan [] 0 [] []))) 3); [reflexivity | lia].
      * intros H. destruct (Z.geb_spec (severity_score
           (fold_left (scan_item (lower (String c s))) AMBIGUOUS_TERMS
              (Scan [] 0 [] []))) 6); [lia|].
        destruct (Z.geb_spec (severity_score
           (fold_left (scan_item (lower (String c s))) AMBIGUOUS_TERMS
              (Scan [] 0 [] []))) 3); [lia | reflexivity].
      * exact Hnd.
      * rewrite Hin, H3, in_map_iff. intros (item & He & Hi).
        exists item. split; assumption.
      * rewrite Hin, H3, in_map_iff. intros (item & Hi & He).
        exists item. split; assumption.
Qed.

Lemma C9_ambiguity_witness :
  aa_risk_level
    (analyze_ambiguity
       "The Supplier shall use best efforts and act in a commercially reasonable manner.")
  = High.
Proof.
  pose proof (C9_ambiguity
    "The Supplier shall use best efforts and act in a commercially reasonable manner.")
    as (_ & _ & H).
  cbv zeta in H. destruct H as (_ & _ & _ & H & _).
  apply H. vm_compute. discriminate.
Defined.

End AmbiguityFacts.

(* ----------------------------------------------------------------- *)
(** ** Segmenter: evaluation on concrete documents *)

Module ExtractorFacts.
Import ClauseExtractor.

(** A run-on paragraph of five sentences that each begin with "The employee
    shall": the paragraph strategy yields one clause and the sentence split
    is adopted, five records tagged "sentence-split". *)
Example five_employee_sentences :
  let doc :=
    "The employee shall report to the office at nine every working day. The employee shall keep all company records strictly confidential. The employee shall return all company property upon leaving. The employee shall follow the written policies of the company. The employee shall give written notice before taking leave." in
  List.length (paragraph_clauses (split_nl (clean_text doc))) = 1%nat /\
  exists cs, extract_clauses doc = Returns cs /\
             List.length cs = 5%nat /\
             forallb (fun c => match source c with
                               | src_sentence_split => true
                               | _ => false
                               end) cs = true.
Proof.
  cbv zeta. split; [vm_compute; reflexivity|].
  eexists. split; [vm_compute; reflexivity|].
  split; vm_compute; reflexivity.
Qed.

(** C1: on the empty text extract_clauses returns the empty sequence, but it
    is not total: on "Salary is paid monthly. Employee shall work from the
    office." the sentence pattern matches through its alternative
    "employee shall", the capturing group of the pattern takes no part,
    re.split puts None into the list, and the call of strip on it raises
    AttributeError. *)
Theorem C1_extract_clauses_raises :
  extract_clauses "" = Returns [] /\
  sentence_split "Salary is paid monthly. Employee shall work from the office."
  = [Some "Salary is paid monthly."; None;
     Some "Employee shall work from the office."] /\
  extract_clauses
    "Salary is paid monthly. Employee shall work from the office."
  = AttributeError.
Proof.
  repeat split; vm_compute; reflexivity.
Qed.

(** C3: a single paragraph of two sentences of 73 and 73 characters, the
    second beginning with "Employee shall".  The paragraph strategy yields
    one clause, the split yields two fragments that pass the length filter,
    and yet no sentence-split result is adopted: the None between them makes
    the loop raise AttributeError. *)
Theorem C3_sentence_split_raises :
  let doc :=
    "The Employer shall pay the agreed salary on the first day of every month. Employee shall not disclose any confidential information of the Employer." in
  let s1 :=
    "The Employer shall pay the agreed salary on the first day of every month." in
  let s2 :=
    "Employee shall not disclose any confidential information of the Employer." in
  map text (paragraph_clauses (split_nl (clean_text doc))) = [doc] /\
  sentence_split doc = [Some s1; None; Some s2] /\
  (40 <= length s1)%nat /\ (40 <= length s2)%nat /\
  extract_clauses doc = AttributeError.
Proof.
  cbv zeta. repeat split; vm_compute; try reflexivity; lia.
Qed.

(** C8: two sentences that each begin with "The employee".  The split list
    is the first sentence, the captured word "employee", the second
    sentence; the loop numbers the records by their position in that list,
    so the two records returned carry the identifiers 1 and 3. *)
Theorem C8_sentence_split_ids_have_gaps :
  let doc :=
    "The employee shall work diligently for the company every day. The employee shall not disclose any confidential information." in
  exists cs,
    extract_clauses doc = Returns cs /\
    map source cs = [src_sentence_split; src_sentence_split] /\
    map clause_id cs = [1; 3]%Z /\
    map clause_id cs <> [1; 2]%Z.
Proof.
  cbv zeta. eexists. split; [vm_compute; reflexivity|].
  repeat split; vm_compute; congruence.
Qed.

End ExtractorFacts.

(* ----------------------------------------------------------------- *)
(** ** Segmenter: the paragraph strategy covers the body lines *)

Module CoverageFacts.
Import ClauseExtractor SegmentNotions.

Lemma append_assoc (a b c : string) : (a ++ b) ++ c = a ++ (b ++ c).
Proof. induction a as [|x a IH]; cbn; [reflexivity | now rewrite IH]. Qed.

Lemma join_cons (x : string) (l : list string) :
  l <> [] -> join_space (x :: l) = x ++ " " ++ join_space l.
Proof. destruct l; [congruence | reflexivity]. Qed.

Lemma join_app (a b : list string) :
  a <> [] -> b <> [] ->
  join_space (a ++ b) = join_space a ++ " " ++ join_space b.
Proof.
  induction a as [|x a IH]; intros Ha Hb; [congruence|].
  destruct a as [|y a].
  - cbn [app]. now rewrite join_cons.
  - change ((x :: y :: a) ++ b)%list with (x :: ((y :: a) ++ b))%list.
    rewrite join_cons by discriminate.
    rewrite IH by (discriminate || assumption).
    rewrite (join_cons x (y :: a)) by discriminate.
    now rewrite !append_assoc.
Qed.

(** Joining the joins of non-empty groups is joining all their lines. *)
Lemma join_groups (gs : list (list string)) :
  Forall (fun g => g <> []) gs ->
  join_space (map join_space gs) = join_space (List.concat gs).
Proof.
  induction 1 as [|g gs Hg Hgs IH]; [reflexivity|].
  cbn [map List.concat]. destruct gs as [|g' gs].
  - cbn. now rewrite app_nil_r.
  - rewrite join_cons by discriminate. rewrite IH.
    rewrite join_app; [reflexivity | assumption |].
    inversion Hgs; subst. cbn [List.concat]. destruct g'; [congruence|discriminate].
Qed.

Lemma text_appended (st : loop_state) :
  map text (appended st)
  = (map text (st_clauses st) ++ [join_space (st_current st)])%list.
Proof. unfold appended. now rewrite map_app. Qed.

(** One step of the loop keeps the clauses a grouping of the body lines
    read so far, the open block being the last, unfinished group. *)
Lemma loop_step_groups (st : loop_state) (raw : string)
      (gs : list (list string)) :
  Forall (fun g => g <> []) gs ->
  map text (st_clauses st) = map join_space gs ->
  exists gs',
    Forall (fun g => g <> []) gs' /\
    map text (st_clauses (loop_step st raw)) = map join_space gs' /\
    (List.concat gs' ++ st_current (loop_step st raw)
     = (List.concat gs ++ st_current st) ++ body_lines [raw])%list.
Proof.
  intros Hne Hgs. unfold loop_step, body_lines. cbn [map filter].
  destruct (strip raw) as [|c l] eqn:E.
  - exists gs. cbn. now rewrite app_nil_r.
  - cbn [String.eqb negb andb].
    destruct (_is_heading (String c l)); cbn [negb].
    + destruct (st_current st) as [|x cur] eqn:Ec.
      * exists gs. cbn. now rewrite !app_nil_r.
      * exists (gs ++ [x :: cur])%list. cbn [st_clauses st_current].
        rewrite text_appended, Ec, Hgs, map_app, concat_app.
        cbn. rewrite !app_nil_r. repeat split.
        apply Forall_app. split; [assumption|]. now repeat constructor.
    + destruct (number_pattern_match (String c l)).
      * destruct (st_current st) as [|x cur] eqn:Ec.
        -- exists gs. cbn. now rewrite !app_nil_r.
        -- exists (gs ++ [x :: cur])%list. cbn [st_clauses st_current].
           rewrite text_appended, Ec, Hgs, map_app, concat_app.
           cbn. rewrite !app_nil_r. repeat split.
           apply Forall_app. split; [assumption|]. now repeat constructor.
      * exists gs. cbn [st_clauses st_current].
        rewrite app_assoc. repeat split; assumption.
Qed.

Lemma body_lines_cons (raw : string) (lines : list string) :
  body_lines (raw :: lines) = (body_lines [raw] ++ body_lines lines)%list.
Proof.
  unfold body_lines. cbn [map filter].
  destruct (negb _ && negb _); reflexivity.
Qed.

Lemma loop_groups (lines : list string) :
  forall (st : loop_state) (gs : list (list string)),
    Forall (fun g => g <> []) gs ->
    map text (st_clauses st) = map join_space gs ->
    exists gs',
      Forall (fun g => g <> []) gs' /\
      map text (st_clauses (fold_left loop_step lines st))
      = map join_space gs' /\
      (List.concat gs' ++ st_current (fold_left loop_step lines st)
       = (List.concat gs ++ st_current st) ++ body_lines lines)%list.
Proof.
  induction lines as [|raw lines IH]; intros st gs Hne Hgs.
  - exists gs. cbn. now rewrite app_nil_r.
  - destruct (loop_step_groups st raw gs Hne Hgs) as (g1 & H1 & H2 & H3).
    destruct (IH (loop_step st raw) g1 H1 H2) as (g2 & H4 & H5 & H6).
    exists g2. cbn [fold_left]. repeat split; try assumption.
    rewrite (body_lines_cons raw lines), H6, H3, app_assoc. reflexivity.
Qed.

(** The clauses of the paragraph strategy are the joins of consecutive,
    non-empty groups of the body lines. *)
Lemma paragraph_groups (lines : list string) :
  exists gs,
    Forall (fun g => g <> []) gs /\
    map text (paragraph_clauses lines) = map join_space gs /\
    List.concat gs = body_lines lines.
Proof.
  destruct (loop_groups lines loop_init [] (Forall_nil _) eq_refl)
    as (gs & Hne & Hgs & Hcat).
  cbn [List.concat st_current loop_init app] in Hcat.
  unfold paragraph_clauses. cbv zeta.
  destruct (st_current (fold_left loop_step lines loop_init))
    as [|x cur] eqn:Ec.
  - exists gs. rewrite app_nil_r in Hcat. repeat split; assumption.
  - exists (gs ++ [x :: cur])%list. repeat split.
    + apply Forall_app. split; [assumption|]. now repeat constructor.
    + rewrite text_appended, Ec, Hgs, map_app. reflexivity.
    + rewrite concat_app. cbn. now rewrite app_nil_r.
Qed.

(** What the paragraph strategy covers: its clauses are the joins of
    consecutive non-empty groups of the body lines, so their texts joined
    are the body lines joined, and there is no clause exactly when there is
    no body line. *)
Lemma paragraph_coverage (lines : list string) :
  (exists groups,
      Forall (fun g => g <> []) groups /\
      List.concat groups = body_lines lines /\
      map text (paragraph_clauses lines) = map join_space groups) /\
  join_space (map text (paragraph_clauses lines))
  = join_space (body_lines lines) /\
  (paragraph_clauses lines = [] <-> body_lines lines = []).
Proof.
  destruct (paragraph_groups lines) as (gs & Hne & Hgs & Hcat).
  split; [|split].
  - exists gs. repeat split; assumption.
  - rewrite Hgs, <- Hcat. now apply join_groups.
  - rewrite <- Hcat. split; intros H.
    + rewrite H in Hgs. destruct gs; [reflexivity | discriminate].
    + destruct gs as [|g gs].
      * destruct (paragraph_clauses _); [reflexivity | discriminate].
      * inversion Hne; subst. cbn [List.concat] in H.
        destruct g; [congruence | discriminate].
Qed.

(** A single clause of the paragraph strategy holds all body lines. *)
Lemma single_clause_text (lines : list string) (only : clause) :
  paragraph_clauses lines = [only] ->
  text only = join_space (body_lines lines).
Proof.
  intros H. destruct (paragraph_coverage lines) as (_ & Hj & _).
  rewrite H in Hj. exact Hj.
Qed.

End CoverageFacts.

(* ----------------------------------------------------------------- *)
(** ** Segmenter: the fallbacks *)

Module FallbackFacts.
Import ClauseExtractor SegmentNotions.

Lemma count_from_snoc (k : Z) (n : nat) :
  count_from k (S n) = (count_from k n ++ [(k + Z.of_nat n)%Z])%list.
Proof.
  revert k. induction n as [|n IH]; intros k.
  - cbn. now rewrite Z.add_0_r.
  - change (count_from k (S (S n))) with (k :: count_from (k + 1) (S n)).
    rewrite IH. cbn [count_from app]. do 3 f_equal. lia.
Qed.

Lemma appended_numbered (st : loop_state) :
  numbered_from_one st ->
  map clause_id (appended st)
  = count_from 1 (List.length (appended st)) /\
  (st_clause_id st + 1
   = 1 + Z.of_nat (List.length (appended st)))%Z.
Proof.
  intros [Hm Hid]. unfold appended.
  rewrite map_app, length_app, Nat.add_1_r, count_from_snoc, Hm.
  cbn [map make_clause clause_id List.length]. rewrite Hid. split; [reflexivity | lia].
Qed.

Lemma loop_step_numbered (st : loop_state) (raw : string) :
  numbered_from_one st -> numbered_from_one (loop_step st raw).
Proof.
  intros H. pose proof (appended_numbered st H) as [Ha Hb].
  unfold loop_step. destruct (strip raw); [exact H|].
  destruct (_is_heading _); [|destruct (number_pattern_match _)];
    destruct (st_current st); split; cbn [st_clauses st_clause_id];
    try apply H; assumption.
Qed.

Lemma loop_numbered (lines : list string) (st : loop_state) :
  numbered_from_one st -> numbered_from_one (fold_left loop_step lines st).
Proof.
  revert st. induction lines as [|raw lines IH]; intros st H; [exact H|].
  cbn [fold_left]. apply IH. now apply loop_step_numbered.
Qed.

(** The paragraph strategy numbers its clauses 1, 2, ..., n. *)
Lemma paragraph_ids (lines : list string) :
  map clause_id (paragraph_clauses lines)
  = count_from 1 (List.length (paragraph_clauses lines)).
Proof.
  assert (H : numbered_from_one (fold_left loop_step lines loop_init))
    by (apply loop_numbered; split; reflexivity).
  unfold paragraph_clauses. cbv zeta.
  destruct (st_current _); [apply H | now apply appended_numbered].
Qed.

(** So does the degraded-text fallback, from its starting number on. *)
Lemma rebuilt_ids (rough : list string) (cid : Z) :
  map clause_id (rebuilt_clauses cid rough)
  = count_from cid (List.length (rebuilt_clauses cid rough)).
Proof.
  revert cid. induction rough as [|s rough IH]; intros cid; [reflexivity|].
  cbn [rebuilt_clauses]. cbv zeta.
  destruct (length (strip s) <? 25)%nat; [apply IH|].
  cbn [map List.length count_from make_clause clause_id]. now rewrite IH.
Qed.

Lemma sentence_clauses_source (sentences : list (option string)) :
  forall (idx : Z) (cs : list clause),
    sentence_clauses idx sentences = Returns cs ->
    Forall (fun c => source c = src_sentence_split) cs.
Proof.
  induction sentences as [|[s|] rest IH]; intros idx cs H;
    cbn [sentence_clauses] in H; cbv zeta in H.
  - injection H as <-. constructor.
  - destruct (sentence_clauses (idx + 1) rest) as [new|] eqn:E;
      [|discriminate].
    specialize (IH _ _ E).
    destruct (length (strip s) <? 40)%nat; injection H as <-;
      [assumption | now constructor].
  - discriminate.
Qed.

(** X6: whenever extract_clauses returns a sequence that is not the result
    of the sentence split, its identifiers are 1, 2, ..., n. *)
Lemma ids_consecutive_outside_sentence_split (doc : string)
      (cs : list clause) :
  extract_clauses doc = Returns cs ->
  Forall (fun c => source c <> src_sentence_split) cs ->
  map clause_id cs = count_from 1 (List.length cs).
Proof.
  unfold extract_clauses. cbv zeta. intros H Hsrc.
  pose proof (paragraph_ids (split_nl (clean_text doc))) as Hp.
  assert (Ho : forall cl, map clause_id cl = count_from 1 (List.length cl) ->
                 map clause_id (ocr_or_paragraph (clean_text doc) cl)
                 = count_from 1
                     (List.length (ocr_or_paragraph (clean_text doc) cl))).
  { intros cl Hcl. unfold ocr_or_paragraph. cbv zeta.
    destruct (3 <=? _)%nat; [apply rebuilt_ids | exact Hcl]. }
  destruct (paragraph_clauses (split_nl (clean_text doc)))
    as [|c1 [|c2 rest]].
  - now injection H as <-.
  - destruct (3 <=? _)%nat.
    + destruct (sentence_clauses 1 _) as [new|] eqn:E; [|discriminate].
      destruct (1 <? List.length new)%nat eqn:El.
      * injection H as <-.
        pose proof (sentence_clauses_source _ _ _ E) as Hs.
        destruct new as [|n1 new]; [discriminate El|].
        inversion Hs; inversion Hsrc; subst. contradiction.
      * injection H as <-. now apply Ho.
    + injection H as <-. now apply Ho.
  - now injection H as <-.
Qed.

(** [re.split] with one capturing group returns an odd number of elements:
    pieces and group contents alternate. *)
Lemma sentence_pieces_odd (s : string) :
  forall prev_dot skip,
    Nat.odd (List.length (sentence_pieces prev_dot skip s)) = true.
Proof.
  induction s as [|c t IH]; intros prev_dot skip; [reflexivity|].
  cbn [sentence_pieces]. destruct skip as [|k]; [|apply IH].
  destruct (if prev_dot && isspace c then lookahead (lstrip (String c t))
            else None) as [g|].
  - cbn [List.length]. rewrite Nat.odd_succ_succ. apply IH.
  - specialize (IH (Ascii.eqb c ".") O).
    destruct (sentence_pieces (Ascii.eqb c ".") 0 t); [discriminate IH|].
    exact IH.
Qed.

Lemma sentence_clauses_length (sentences : list (option string)) :
  forall (idx : Z) (cs : list clause),
    sentence_clauses idx sentences = Returns cs ->
    (List.length cs <= List.length sentences)%nat.
Proof.
  induction sentences as [|[s|] rest IH]; intros idx cs H;
    cbn [sentence_clauses] in H; cbv zeta in H.
  - injection H as <-. cbn. lia.
  - destruct (sentence_clauses (idx + 1) rest) as [new|] eqn:E;
      [|discriminate].
    specialize (IH _ _ E).
    destruct (length (strip s) <? 40)%nat; injection H as <-; cbn; lia.
  - discriminate.
Qed.

(** X7: when the loop over the split list completes, the sentence split is
    adopted exactly as the length filter decides: two or more surviving
    fragments are returned, all tagged "sentence-split" (the test on the
    length of the split list never stands in the way), and fewer leave the
    decision to the degraded-text fallback. *)
Lemma sentence_split_adoption (doc : string) (only : clause)
      (new : list clause) :
  paragraph_clauses (split_nl (clean_text doc)) = [only] ->
  sentence_clauses 1 (sentence_split (text only)) = Returns new ->
  ((2 <= List.length new)%nat ->
   extract_clauses doc = Returns new /\
   Forall (fun c => source c = src_sentence_split) new) /\
  ((List.length new < 2)%nat ->
   extract_clauses doc
   = Returns (ocr_or_paragraph (clean_text doc) [only])).
Proof.
  intros Hp Hs. unfold extract_clauses. cbv zeta. rewrite Hp, Hs.
  pose proof (sentence_clauses_length _ _ _ Hs) as Hlen.
  pose proof (sentence_pieces_odd (text only) false O) as Hodd.
  fold (sentence_split (text only)) in Hodd.
  split; intros H.
  - destruct (Nat.leb_spec 3 (List.length (sentence_split (text only))))
      as [_|Hlt].
    + destruct (Nat.ltb_spec 1 (List.length new)); [|lia].
      split; [reflexivity|]. eapply sentence_clauses_source, Hs.
    + assert (E : List.length (sentence_split (text only)) = 2%nat) by lia.
      rewrite E in Hodd. discriminate Hodd.
  - destruct (3 <=? _)%nat; [|reflexivity].
    destruct (Nat.ltb_spec 1 (List.length new)); [lia | reflexivity].
Qed.

End FallbackFacts.

(* ----------------------------------------------------------------- *)
(** ** Text normalizer *)

Module CleanFacts.
Import ClauseExtractor SegmentNotions NormalizerSpec.

Lemma append_nil_r (s : string) : s ++ "" = s.
Proof. induction s as [|a s IH]; cbn; [reflexivity | now rewrite IH]. Qed.

Lemma repeat_char_snoc (c : ascii) (n : nat) (s : string) :
  repeat_char c (S n) ++ s = repeat_char c n ++ String c s.
Proof. induction n as [|n IH]; cbn in *; [reflexivity | now rewrite IH]. Qed.

(** *** Characters that a step never produces *)

Lemma has_char_app (x : ascii) (s t : string) :
  has_char x (s ++ t) = has_char x s || has_char x t.
Proof.
  unfold has_char. induction s as [|a s IH]; cbn; [reflexivity|].
  now rewrite IH, orb_assoc.
Qed.

Lemma has_char_repeat (x c : ascii) (n : nat) :
  x <> c -> has_char x (repeat_char c n) = false.
Proof.
  intros H. unfold has_char. induction n as [|n IH]; cbn; [reflexivity|].
  rewrite IH, orb_false_r. now apply Ascii.eqb_neq.
Qed.

Lemma replace_char_absent (a b : ascii) (s : string) :
  has_char a s = false -> replace_char a b s = s.
Proof.
  unfold has_char. induction s as [|c s IH]; cbn; [reflexivity|].
  intros H. apply orb_false_iff in H as [H1 H2].
  rewrite Ascii.eqb_sym, H1, IH; auto.
Qed.

Lemma replace_char_removes (a b : ascii) (s : string) :
  a <> b -> has_char a (replace_char a b s) = false.
Proof.
  intros Hab. unfold has_char. induction s as [|c s IH]; cbn; [reflexivity|].
  rewrite IH, orb_false_r. destruct (Ascii.eqb_spec c a) as [->|Hc].
  - now apply Ascii.eqb_neq.
  - apply Ascii.eqb_neq. congruence.
Qed.

Lemma replace_char_keeps_absent (x a b : ascii) (s : string) :
  x <> b -> has_char x s = false -> has_char x (replace_char a b s) = false.
Proof.
  intros Hxb. unfold has_char. induction s as [|c s IH]; cbn; [reflexivity|].
  intros H. apply orb_false_iff in H as [H1 H2]. rewrite (IH H2), orb_false_r.
  destruct (Ascii.eqb c a); [now apply Ascii.eqb_neq | exact H1].
Qed.

Lemma sub_runs_keeps_absent (x c : ascii) (lo keep : nat) (s : string) :
  x <> c -> has_char x s = false ->
  forall n, has_char x (sub_runs c lo keep n s) = false.
Proof.
  intros Hxc. induction s as [|a s IH]; intros H n; cbn [sub_runs].
  - now apply has_char_repeat.
  - unfold has_char in H. cbn in H. apply orb_false_iff in H as [H1 H2].
    destruct (Ascii.eqb a c); [now apply IH|].
    rewrite has_char_app. unfold flush_run.
    rewrite has_char_repeat by assumption.
    unfold has_char at 1. cbn. rewrite H1. now apply IH.
Qed.

Lemma lstrip_keeps_absent (x : ascii) (s : string) :
  has_char x s = false -> has_char x (lstrip s) = false.
Proof.
  unfold has_char. induction s as [|a s IH]; cbn; [reflexivity|].
  intros H. destruct (isspace a); [|exact H].
  apply orb_false_iff in H as [_ H]. auto.
Qed.

Lemma rstrip_keeps_absent (x : ascii) (s : string) :
  has_char x s = false -> has_char x (rstrip s) = false.
Proof.
  unfold has_char. induction s as [|a s IH]; cbn; [reflexivity|].
  intros H. apply orb_false_iff in H as [H1 H2]. specialize (IH H2).
  destruct (rstrip s) as [|b u].
  - destruct (isspace a); cbn; [reflexivity | now rewrite H1].
  - cbn in *. now rewrite H1, IH.
Qed.

Lemma strip_keeps_absent (x : ascii) (s : string) :
  has_char x s = false -> has_char x (strip s) = false.
Proof.
  intros H. unfold strip. now apply rstrip_keeps_absent, lstrip_keeps_absent.
Qed.

(** *** Runs *)

Lemma runs_below_lt (c : ascii) (lo : nat) (s : string) :
  forall n, runs_below c lo n s = true -> (n < lo)%nat.
Proof.
  induction s as [|a s IH]; intros n H; cbn in H.
  - now apply Nat.ltb_lt.
  - destruct (Ascii.eqb a c).
    + apply IH in H. lia.
    + apply andb_true_iff in H as [H _]. now apply Nat.ltb_lt.
Qed.

Lemma runs_below_mono (c : ascii) (lo : nat) (s : string) :
  forall n m, (m <= n)%nat ->
              runs_below c lo n s = true -> runs_below c lo m s = true.
Proof.
  induction s as [|a s IH]; intros n m Hle H; cbn in *.
  - apply Nat.ltb_lt in H. apply Nat.ltb_lt. lia.
  - destruct (Ascii.eqb a c).
    + apply (IH (S n)); [lia | exact H].
    + apply andb_true_iff in H as [H1 H2]. rewrite H2, andb_true_r.
      apply Nat.ltb_lt in H1. apply Nat.ltb_lt. lia.
Qed.

Lemma runs_below_repeat (c : ascii) (lo m : nat) (r : string) :
  forall k, runs_below c lo k (repeat_char c m ++ r)
            = runs_below c lo (k + m) r.
Proof.
  induction m as [|m IH]; intros k; cbn [repeat_char append runs_below].
  - now rewrite Nat.add_0_r.
  - rewrite Ascii.eqb_refl, IH. f_equal. lia.
Qed.

Lemma runs_below_other_repeat (d c : ascii) (lo m k : nat) (r : string) :
  c <> d -> (k < lo)%nat -> (1 <= m)%nat ->
  runs_below d lo 0 r = true ->
  runs_below d lo k (repeat_char c m ++ r) = true.
Proof.
  intros Hcd Hk Hm Hr. apply Ascii.eqb_neq in Hcd.
  destruct m as [|m]; [lia|]. clear Hm.
  cbn [repeat_char append runs_below]. rewrite Hcd.
  apply andb_true_iff. split; [apply Nat.ltb_lt; lia|].
  induction m as [|m IH]; cbn [repeat_char append runs_below]; [exact Hr|].
  rewrite Hcd, IH, andb_true_r. apply Nat.ltb_lt. lia.
Qed.

Lemma flush_run_short (c : ascii) (lo keep n : nat) :
  (n < lo)%nat -> flush_run c lo keep n = repeat_char c n.
Proof.
  intros H. unfold flush_run.
  destruct (Nat.leb_spec lo n); [lia | reflexivity].
Qed.

(** The substitution read run by run: a run of [n] characters [c] that ends
    before another character becomes [keep] characters when [n] reaches
    [lo], and stays as it is otherwise. *)
Lemma sub_runs_run (c a : ascii) (lo keep n : nat) (s : string) :
  a <> c ->
  sub_runs c lo keep 0 (repeat_char c n ++ String a s)
  = flush_run c lo keep n ++ String a (sub_runs c lo keep 0 s).
Proof.
  intros Hac.
  enough (G : forall k, sub_runs c lo keep k (repeat_char c n ++ String a s)
                        = flush_run c lo keep (k + n)
                          ++ String a (sub_runs c lo keep 0 s))
    by apply (G 0%nat).
  induction n as [|n IH]; intros k; cbn [repeat_char append sub_runs].
  - apply Ascii.eqb_neq in Hac. now rewrite Hac, Nat.add_0_r.
  - rewrite Ascii.eqb_refl, IH. do 2 f_equal. lia.
Qed.

(** A text whose runs are all short is left alone by the substitution. *)
Lemma sub_runs_short (c : ascii) (lo keep : nat) (s : string) :
  forall n, runs_below c lo n s = true ->
            sub_runs c lo keep n s = repeat_char c n ++ s.
Proof.
  induction s as [|a s IH]; intros n H; cbn [sub_runs runs_below] in *.
  - rewrite append_nil_r. apply flush_run_short. now apply Nat.ltb_lt.
  - destruct (Ascii.eqb_spec a c) as [->|Hac].
    + rewrite (IH _ H). apply repeat_char_snoc.
    + apply andb_true_iff in H as [H1 H2]. apply Nat.ltb_lt in H1.
      rewrite (flush_run_short _ _ _ _ H1), (IH _ H2). reflexivity.
Qed.

(** After the substitution every run is short. *)
Lemma sub_runs_runs_below (c : ascii) (lo keep : nat) (s : string) :
  (keep < lo)%nat ->
  forall n, runs_below c lo 0 (sub_runs c lo keep n s) = true.
Proof.
  intros Hk.
  assert (Hf : forall n r, runs_below c lo 0 (flush_run c lo keep n ++ r)
                           = runs_below c lo
                               (if (lo <=? n)%nat then keep else n) r)
    by (intros; unfold flush_run; now rewrite runs_below_repeat).
  assert (Hlt : forall n, ((if (lo <=? n)%nat then keep else n) < lo)%nat)
    by (intros n; destruct (Nat.leb_spec lo n); lia).
  induction s as [|a s IH]; intros n; cbn [sub_runs].
  - rewrite <- (append_nil_r (flush_run _ _ _ _)), Hf. cbn.
    apply Nat.ltb_lt, Hlt.
  - destruct (Ascii.eqb_spec a c) as [->|Hac]; [apply IH|].
    rewrite Hf. cbn [runs_below]. apply Ascii.eqb_neq in Hac. rewrite Hac.
    rewrite IH, andb_true_r. apply Nat.ltb_lt, Hlt.
Qed.

(** The substitution for one character keeps the runs of another short:
    it never removes a run of its own character entirely. *)
Lemma sub_runs_other_runs (d c : ascii) (lo lo' keep : nat) (s : string) :
  c <> d -> (1 <= lo')%nat -> (1 <= keep)%nat ->
  forall n k,
    (n = 0%nat -> runs_below d lo k s = true ->
     runs_below d lo k (sub_runs c lo' keep n s) = true) /\
    ((0 < n)%nat -> (k < lo)%nat -> runs_below d lo 0 s = true ->
     runs_below d lo k (sub_runs c lo' keep n s) = true).
Proof.
  intros Hcd Hlo Hkeep.
  assert (Hm : forall n, (0 < n)%nat ->
                  (1 <= (if (lo' <=? n)%nat then keep else n))%nat)
    by (intros n Hn; destruct (lo' <=? n)%nat; lia).
  assert (H0 : flush_run c lo' keep 0 = "")
    by (unfold flush_run; destruct (Nat.leb_spec lo' 0); [lia | reflexivity]).
  induction s as [|a s IH]; intros n k; cbn [sub_runs].
  - split.
    + intros -> H. now rewrite H0.
    + intros Hn Hk _. rewrite <- (append_nil_r (flush_run _ _ _ _)).
      unfold flush_run. apply runs_below_other_repeat; auto.
      cbn [runs_below]. apply Nat.ltb_lt. lia.
  - destruct (Ascii.eqb_spec a c) as [->|Hac].
    + split.
      * intros -> H. cbn [runs_below] in H.
        apply Ascii.eqb_neq in Hcd. rewrite Hcd in H.
        apply andb_true_iff in H as [H1 H2]. apply Nat.ltb_lt in H1.
        apply (proj2 (IH 1%nat k)); [lia | assumption..].
      * intros Hn Hk H. cbn [runs_below] in H.
        apply Ascii.eqb_neq in Hcd. rewrite Hcd in H.
        apply andb_true_iff in H as [_ H2].
        apply (proj2 (IH (S n) k)); [lia | assumption..].
    + assert (Hstep : forall k', runs_below d lo k' (String a s) = true ->
                runs_below d lo k' (String a (sub_runs c lo' keep 0 s))
                = true).
      { intros k' H. cbn [runs_below] in *. destruct (Ascii.eqb a d).
        - now apply (proj1 (IH 0%nat (S k'))).
        - apply andb_true_iff in H as [H1 H2]. rewrite H1. cbn [andb].
          now apply (proj1 (IH 0%nat 0%nat)). }
      split.
      * intros -> H. rewrite H0. cbn [append]. now apply Hstep.
      * intros Hn Hk H. unfold flush_run.
        apply runs_below_other_repeat; auto.
Qed.

Lemma runs_below_tail (c a : ascii) (lo : nat) (s : string) :
  runs_below c lo 0 (String a s) = true -> runs_below c lo 0 s = true.
Proof.
  cbn. destruct (Ascii.eqb a c); intros H.
  - apply (runs_below_mono _ _ _ 1%nat); [lia | exact H].
  - now apply andb_true_iff in H as [_ H].
Qed.

Lemma lstrip_runs_below (c : ascii) (lo : nat) (s : string) :
  runs_below c lo 0 s = true -> runs_below c lo 0 (lstrip s) = true.
Proof.
  induction s as [|a s IH]; intros H; cbn [lstrip]; [exact H|].
  destruct (isspace a); [|exact H]. apply IH. eapply runs_below_tail, H.
Qed.

Lemma rstrip_runs_below (c : ascii) (lo : nat) (s : string) :
  forall k, runs_below c lo k s = true ->
            runs_below c lo k (rstrip s) = true.
Proof.
  induction s as [|a s IH]; intros k H; cbn [rstrip]; [exact H|].
  pose proof (runs_below_lt _ _ _ _ H) as Hk.
  cbn [runs_below] in H. destruct (rstrip s) as [|b u] eqn:E.
  - destruct (isspace a); cbn [runs_below]; [now apply Nat.ltb_lt|].
    destruct (Ascii.eqb a c).
    + apply runs_below_lt in H. now apply Nat.ltb_lt.
    + apply andb_true_iff. split; apply Nat.ltb_lt; lia.
  - cbn [runs_below]. destruct (Ascii.eqb a c); [now apply IH|].
    apply andb_true_iff in H as [H1 H2]. rewrite H1. now apply IH.
Qed.

Lemma prefix_repeat_runs (c : ascii) (lo m : nat) :
  forall s k, prefix (repeat_char c m) s = true ->
              runs_below c lo k s = true -> (k + m < lo)%nat.
Proof.
  induction m as [|m IH]; intros s k Hp Hr.
  - apply runs_below_lt in Hr. lia.
  - destruct s as [|a s]; [discriminate Hp|]. cbn in Hp.
    destruct (ascii_dec c a) as [<-|]; [|discriminate].
    cbn [runs_below] in Hr. rewrite Ascii.eqb_refl in Hr.
    specialize (IH _ _ Hp Hr). lia.
Qed.

(** Short runs, said with a substring: [lo] consecutive [c] never occur. *)
Lemma runs_below_contains (c : ascii) (lo : nat) (s : string) :
  forall k, runs_below c lo k s = true ->
            contains (repeat_char c lo) s = false.
Proof.
  induction s as [|a s IH]; intros k H.
  - cbn [contains]. rewrite orb_false_r.
    destruct (prefix _ _) eqn:E; [|reflexivity].
    pose proof (prefix_repeat_runs _ _ _ _ _ E H). lia.
  - cbn [contains]. apply orb_false_iff. split.
    + destruct (prefix _ _) eqn:E; [|reflexivity].
      pose proof (prefix_repeat_runs _ _ _ _ _ E H). lia.
    + cbn [runs_below] in H. destruct (Ascii.eqb a c); [now apply (IH (S k))|].
      apply andb_true_iff in H as [_ H]. now apply (IH 0%nat).
Qed.

(** *** Trimming *)

Lemma lstrip_starts_clean (s : string) : starts_clean (lstrip s) = true.
Proof.
  induction s as [|a s IH]; cbn; [reflexivity|].
  destruct (isspace a) eqn:E; [exact IH | cbn; now rewrite E].
Qed.

Lemma lstrip_clean (s : string) : starts_clean s = true -> lstrip s = s.
Proof.
  destruct s as [|a s]; cbn; [reflexivity|].
  now destruct (isspace a).
Qed.

Lemma rstrip_starts_clean (s : string) :
  starts_clean s = true -> starts_clean (rstrip s) = true.
Proof.
  destruct s as [|a s]; [reflexivity|].
  cbn [starts_clean rstrip]. intros H.
  destruct (rstrip s); [|exact H].
  destruct (isspace a) eqn:E; [discriminate H|].
  cbn [starts_clean]. now rewrite E.
Qed.

Lemma rstrip_idempotent (s : string) : rstrip (rstrip s) = rstrip s.
Proof.
  induction s as [|a s IH]; cbn [rstrip]; [reflexivity|].
  destruct (rstrip s) as [|b u] eqn:E.
  - destruct (isspace a) eqn:Ea; cbn [rstrip]; [reflexivity | now rewrite Ea].
  - cbn [rstrip] in *. now rewrite IH.
Qed.

Lemma strip_idempotent (s : string) : strip (strip s) = strip s.
Proof.
  unfold strip.
  rewrite (lstrip_clean (rstrip (lstrip s)))
    by apply rstrip_starts_clean, lstrip_starts_clean.
  apply rstrip_idempotent.
Qed.

Lemma strip_runs_below (c : ascii) (lo : nat) (s : string) :
  runs_below c lo 0 s = true -> runs_below c lo 0 (strip s) = true.
Proof.
  intros H. unfold strip. now apply rstrip_runs_below, lstrip_runs_below.
Qed.

(** *** The normalizer *)

Lemma clean_text_nonempty (a : ascii) (s : string) :
  clean_text (String a s) = strip (collapsed (String a s)).
Proof. reflexivity. Qed.

Lemma tab_not_space : tab <> space. Proof. discriminate. Qed.
Lemma tab_not_nl : tab <> nl. Proof. discriminate. Qed.
Lemma cr_not_nl : cr <> nl. Proof. discriminate. Qed.
Lemma cr_not_space : cr <> space. Proof. discriminate. Qed.
Lemma space_not_nl : space <> nl. Proof. discriminate. Qed.

(** What every normalized text looks like. *)
Lemma clean_text_shape (text : string) :
  has_char tab (clean_text text) = false /\
  has_char cr (clean_text text) = false /\
  runs_below nl 3 0 (clean_text text) = true /\
  runs_below space 2 0 (clean_text text) = true /\
  strip (clean_text text) = clean_text text.
Proof.
  destruct text as [|a s]; [repeat split; reflexivity|].
  rewrite clean_text_nonempty. generalize (String a s) as text.
  intros text. unfold collapsed. repeat split.
  - apply strip_keeps_absent.
    apply sub_runs_keeps_absent; [exact tab_not_space|].
    apply sub_runs_keeps_absent; [exact tab_not_nl|].
    apply replace_char_keeps_absent; [exact tab_not_nl|].
    apply replace_char_removes, tab_not_space.
  - apply strip_keeps_absent.
    apply sub_runs_keeps_absent; [exact cr_not_space|].
    apply sub_runs_keeps_absent; [exact cr_not_nl|].
    apply replace_char_removes, cr_not_nl.
  - apply strip_runs_below.
    apply (proj1 (sub_runs_other_runs nl space 3 2 1 _ space_not_nl
                    ltac:(lia) ltac:(lia) 0%nat 0%nat) eq_refl).
    apply sub_runs_runs_below. lia.
  - apply strip_runs_below. apply sub_runs_runs_below. lia.
  - apply strip_idempotent.
Qed.

Lemma clean_text_fixed (o : string) :
  has_char tab o = false -> has_char cr o = false ->
  runs_below nl 3 0 o = true -> runs_below space 2 0 o = true ->
  strip o = o ->
  clean_text o = o.
Proof.
  intros Ht Hc Hn Hs Hst.
  destruct o as [|a s]; [reflexivity|].
  rewrite clean_text_nonempty. unfold collapsed.
  rewrite (replace_char_absent _ _ _ Ht), (replace_char_absent _ _ _ Hc).
  rewrite (sub_runs_short _ _ _ _ _ Hn). cbn [repeat_char append].
  rewrite (sub_runs_short _ _ _ _ _ Hs). cbn [repeat_char append].
  exact Hst.
Qed.

(** *** The normalizer against its contract *)

Lemma replace_convert (t : string) :
  replace_char cr nl (replace_char tab space t) = convert_all t.
Proof.
  induction t as [|c t IH]; cbn [replace_char convert_all]; [reflexivity|].
  rewrite IH. f_equal. unfold convert.
  destruct (Ascii.eqb c tab); reflexivity.
Qed.

Lemma runs_maximal (s : string) : maximal (runs s).
Proof.
  induction s as [|c t IH]; cbn [runs]; [exact I|].
  destruct (runs t) as [|[d n] r]; [cbn; auto|].
  destruct (Ascii.eqb_spec c d) as [->|Hcd].
  - destruct IH as (Hn & Hd & Hr). repeat split; [lia | exact Hd | exact Hr].
  - repeat split; [lia | exact Hcd | apply IH | apply IH | apply IH].
Qed.

Lemma unruns_runs (s : string) : unruns (runs s) = s.
Proof.
  induction s as [|c t IH]; cbn [runs]; [reflexivity|].
  destruct (runs t) as [|[d n] r]; [now rewrite <- IH|].
  destruct (Ascii.eqb_spec c d) as [->|Hcd]; rewrite <- IH; reflexivity.
Qed.

Lemma cap_maximal (c : ascii) (lo keep : nat) (l : list (ascii * nat)) :
  (1 <= keep)%nat -> maximal l -> maximal (map (cap c lo keep) l).
Proof.
  intros Hk.
  assert (Hfst : forall r, fst (cap c lo keep r) = fst r).
  { intros [d n]. unfold cap. destruct (Ascii.eqb_spec d c) as [->|];
      cbn [andb]; [destruct (lo <=? n)%nat|]; reflexivity. }
  assert (Hsnd : forall r, (1 <= snd r)%nat ->
                           (1 <= snd (cap c lo keep r))%nat).
  { intros [d n] Hn. unfold cap.
    destruct (Ascii.eqb d c && (lo <=? n)%nat); cbn [snd] in *; lia. }
  induction l as [|r l IH]; intros H; [exact I|].
  cbn [map]. pose proof (Hfst r) as Hf. pose proof (Hsnd r) as Hs.
  destruct (cap c lo keep r) as [d' n'], r as [d n]. cbn [fst snd] in *.
  destruct H as (Hn & Hd & Hl). subst d'.
  split; [auto|]. split; [|auto].
  destruct l as [|r2 l]; [exact I|]. cbn [map].
  pose proof (Hfst r2) as Hf2.
  destruct (cap c lo keep r2) as [e' m'], r2 as [e m]. cbn [fst] in Hf2.
  now subst e'.
Qed.

Lemma flush_run_zero (c : ascii) (lo keep : nat) :
  (1 <= lo)%nat -> flush_run c lo keep 0 = "".
Proof.
  intros H. unfold flush_run. destruct (Nat.leb_spec lo 0); [lia | reflexivity].
Qed.

Lemma sub_runs_end (c : ascii) (lo keep n : nat) :
  forall k, sub_runs c lo keep k (repeat_char c n)
            = flush_run c lo keep (k + n).
Proof.
  induction n as [|n IH]; intros k; cbn [repeat_char sub_runs].
  - now rewrite Nat.add_0_r.
  - rewrite Ascii.eqb_refl, IH. f_equal. lia.
Qed.

Lemma sub_runs_skip (c d : ascii) (lo keep n : nat) (s : string) :
  (1 <= lo)%nat -> d <> c ->
  sub_runs c lo keep 0 (repeat_char d n ++ s)
  = repeat_char d n ++ sub_runs c lo keep 0 s.
Proof.
  intros Hlo Hdc. apply Ascii.eqb_neq in Hdc.
  induction n as [|n IH]; cbn [repeat_char append sub_runs]; [reflexivity|].
  now rewrite Hdc, flush_run_zero, IH.
Qed.

(** One substitution, read on the runs of the text. *)
Lemma sub_runs_unruns (c : ascii) (lo keep : nat) (l : list (ascii * nat)) :
  (1 <= lo)%nat -> maximal l ->
  sub_runs c lo keep 0 (unruns l) = unruns (map (cap c lo keep) l).
Proof.
  intros Hlo. induction l as [|[d n] l IH]; intros H.
  - cbn. now apply flush_run_zero.
  - destruct H as (Hn & Hd & Hl). specialize (IH Hl). cbn [map].
    destruct (Ascii.eqb_spec d c) as [->|Hdc].
    + assert (E : unruns (cap c lo keep (c, n) :: map (cap c lo keep) l)
                  = flush_run c lo keep n ++ unruns (map (cap c lo keep) l))
        by (unfold cap, flush_run; rewrite Ascii.eqb_refl; cbn [andb];
            destruct (lo <=? n)%nat; reflexivity).
      rewrite E. clear E. cbn [unruns].
      destruct l as [|[a m] l].
      * cbn [unruns map]. rewrite !append_nil_r.
        apply (sub_runs_end c lo keep n 0).
      * destruct m as [|m]; [destruct Hl; lia|].
        rewrite <- IH. cbn [unruns repeat_char append].
        assert (Hac : a <> c) by congruence.
        rewrite sub_runs_run by exact Hac.
        cbn [sub_runs]. apply Ascii.eqb_neq in Hac.
        now rewrite Hac, flush_run_zero.
    + assert (E : cap c lo keep (d, n) = (d, n))
        by (unfold cap; apply Ascii.eqb_neq in Hdc; now rewrite Hdc).
      rewrite E. cbn [unruns].
      rewrite sub_runs_skip by assumption. now rewrite IH.
Qed.

Lemma collapse_caps (r : ascii * nat) :
  collapse r = cap space 2 1 (cap nl 3 2 r).
Proof.
  destruct r as [c n]. unfold collapse, cap.
  destruct (Ascii.eqb_spec c nl) as [->|Hn]; cbn [andb].
  - destruct (3 <=? n)%nat; reflexivity.
  - reflexivity.
Qed.

(** The four substitutions of the source do what the contract says. *)
Lemma collapsed_squeezed (t : string) : collapsed t = squeezed t.
Proof.
  unfold collapsed, squeezed. rewrite replace_convert.
  rewrite <- (unruns_runs (convert_all t)) at 1.
  rewrite sub_runs_unruns by (lia || apply runs_maximal).
  rewrite sub_runs_unruns
    by (lia || (apply cap_maximal; [lia | apply runs_maximal])).
  rewrite map_map. f_equal. apply map_ext. intros r.
  symmetry. apply collapse_caps.
Qed.

Lemma lstrip_cut (s : string) :
  exists l, s = l ++ lstrip s /\ blank l = true.
Proof.
  induction s as [|c s (l & E & B)]; [now exists ""|].
  cbn [lstrip]. destruct (isspace c) eqn:Ec.
  - exists (String c l). cbn. rewrite Ec, B. now rewrite <- E.
  - now exists "".
Qed.

Lemma rstrip_cut (s : string) :
  exists r, s = rstrip s ++ r /\ blank r = true.
Proof.
  induction s as [|c s (r & E & B)]; [now exists ""|].
  cbn [rstrip]. destruct (rstrip s) as [|b u].
  - cbn [append] in E. destruct (isspace c) eqn:Ec.
    + exists (String c r). cbn [append blank]. rewrite Ec, B.
      split; [congruence | reflexivity].
    + exists r. cbn [append]. split; [congruence | exact B].
  - exists r. cbn [append] in *. split; [congruence | exact B].
Qed.

(** Trimming removes a blank prefix and a blank suffix, nothing else. *)
Lemma strip_cut (s : string) :
  exists l r, s = l ++ strip s ++ r /\ blank l = true /\ blank r = true.
Proof.
  destruct (lstrip_cut s) as (l & El & Bl).
  destruct (rstrip_cut (lstrip s)) as (r & Er & Br).
  exists l, r. unfold strip. now rewrite <- Er, <- El.
Qed.

Lemma clean_text_squeezed (t : string) : clean_text t = strip (squeezed t).
Proof.
  destruct t as [|a s]; [reflexivity|].
  now rewrite clean_text_nonempty, collapsed_squeezed.
Qed.

(** C7: clean_text maps the empty text to the empty text.  Its result is
    the input read run by run, with every tab turned into a space and every
    carriage return into a newline, every run of three or more newlines cut
    to exactly two and every run of two or more spaces to one, all other
    characters and runs kept as they are, and then trimmed: what is cut
    from the two ends is whitespace only, and nothing is left to trim.  So
    the result holds no tab and no carriage return, no three consecutive
    newlines and no two consecutive spaces.  Two texts show the conversion:
    one with a tab beside a space and a carriage return beside line breaks,
    one with a tab and a carriage return between letters.  And clean_text
    is idempotent. *)
Theorem C7_clean_text_idempotent (t : string) :
  clean_text "" = "" /\
  clean_text t = strip (squeezed t) /\
  (exists l r, squeezed t = l ++ clean_text t ++ r /\
               blank l = true /\ blank r = true) /\
  has_char tab (clean_text t) = false /\
  has_char cr (clean_text t) = false /\
  contains (String nl (String nl (String nl ""))) (clean_text t) = false /\
  contains "  " (clean_text t) = false /\
  strip (clean_text t) = clean_text t /\
  clean_text ("  a" ++ String tab " b"
                ++ String cr (String nl (String nl (String nl "c   d "))))
  = "a b" ++ String nl (String nl "c d") /\
  clean_text ("pay" ++ String tab "rent" ++ String cr "now")
  = "pay rent" ++ String nl "now" /\
  clean_text (clean_text t) = clean_text t.
Proof.
  destruct (clean_text_shape t) as (Ht & Hc & Hn & Hs & Hst).
  split; [reflexivity|].
  split; [apply clean_text_squeezed|].
  split.
  { rewrite clean_text_squeezed. apply strip_cut. }
  repeat split; try assumption.
  - exact (runs_below_contains nl 3 _ _ Hn).
  - exact (runs_below_contains space 2 _ _ Hs).
  - now apply clean_text_fixed.
Qed.

End CleanFacts.

(* ----------------------------------------------------------------- *)
(** ** Segmenter: shape of the emitted clauses *)

Module ShapeFacts.
Import ClauseExtractor SegmentNotions ShapeNotions.

Lemma strip_line_ok (raw : string) :
  strip raw <> "" -> line_ok (strip raw).
Proof.
  intros H. repeat split; [exact H | |].
  - unfold strip. apply CleanFacts.lstrip_clean.
    apply CleanFacts.rstrip_starts_clean, CleanFacts.lstrip_starts_clean.
  - unfold strip. apply CleanFacts.rstrip_idempotent.
Qed.

Lemma line_ok_strip (l : string) : line_ok l -> strip l = l.
Proof. intros (_ & Hl & Hr). unfold strip. now rewrite Hl. Qed.

Lemma lstrip_app (a b : string) :
  a <> "" -> lstrip a = a -> lstrip (a ++ b) = a ++ b.
Proof.
  destruct a as [|c a]; [congruence|]. intros _. cbn [lstrip append].
  destruct (isspace c) eqn:E; [|reflexivity].
  intros H. exfalso.
  assert (Hlen : forall s, (length (lstrip s) <= length s)%nat).
  { induction s as [|x s IH]; cbn; [lia|]. destruct (isspace x); cbn; lia. }
  pose proof (Hlen a) as Hl. rewrite H in Hl. cbn in Hl. lia.
Qed.

Lemma rstrip_app (a b : string) :
  b <> "" -> rstrip b = b -> rstrip (a ++ b) = a ++ b.
Proof.
  intros Hb Hr. induction a as [|c a IH]; [exact Hr|].
  cbn [append rstrip]. rewrite IH.
  destruct (a ++ b) eqn:E; [|reflexivity].
  destruct a; cbn in E; [congruence | discriminate].
Qed.

Lemma append_nonempty_r (a b : string) : b <> "" -> a ++ b <> "".
Proof. destruct a; cbn; [auto | discriminate]. Qed.

Lemma join_line_ok (ls : list string) :
  ls <> [] -> Forall line_ok ls -> line_ok (join_space ls).
Proof.
  induction ls as [|x ls IH]; intros Hne H; [congruence|].
  inversion H as [|? ? Hx Hls]; subst. destruct ls as [|y ls]; [exact Hx|].
  rewrite CoverageFacts.join_cons by discriminate.
  destruct (IH ltac:(discriminate) Hls) as (Hn & Hl & Hr).
  destruct Hx as (Hxn & Hxl & Hxr).
  repeat split.
  - destruct x; [congruence | discriminate].
  - now apply lstrip_app.
  - apply rstrip_app.
    + now apply append_nonempty_r.
    + now apply (rstrip_app " ").
Qed.

(** The ordinal prefix is decided by the beginning of the line. *)
Lemma number_tail_app (x : string) :
  forall n s, (length s <= n)%nat ->
              number_tail s = true -> number_tail (s ++ x) = true.
Proof.
  induction n as [|n IH]; intros s Hlen H.
  - destruct s; [discriminate H | cbn in Hlen; lia].
  - destruct s as [|c t]; [discriminate H|].
    cbn [length] in Hlen. cbn [number_tail append] in *.
    destruct (isdigit c); [apply IH; [lia | exact H]|].
    destruct (Ascii.eqb c ".").
    + destruct t as [|d t']; [discriminate H|]. cbn [append].
      destruct (isdigit d); [|exact H].
      apply IH; [cbn [length] in Hlen; lia | exact H].
    + destruct (Ascii.eqb c ")"); [|exact H].
      destruct t as [|d t']; [discriminate H | exact H].
Qed.

Lemma number_pattern_app (l x : string) :
  number_pattern_match l = true -> number_pattern_match (l ++ x) = true.
Proof.
  destruct l as [|c t]; [discriminate|]. cbn [number_pattern_match append].
  intros H. apply andb_true_iff in H as [H1 H2]. rewrite H1.
  now apply (number_tail_app x (length t)).
Qed.

Lemma number_pattern_join (l : string) (rest : list string) :
  number_pattern_match l = true ->
  number_pattern_match (join_space (l :: rest)) = true.
Proof.
  intros H. destruct rest as [|y rest]; [exact H|].
  rewrite CoverageFacts.join_cons by discriminate.
  now apply number_pattern_app.
Qed.

Lemma appended_wf (st : loop_state) :
  loop_wf st -> st_current st <> [] ->
  Forall (fun c => clause_wf c /\ from_loop c) (appended st).
Proof.
  intros (Hcl & Hcur & Hsrc) Hne. unfold appended.
  apply Forall_app. split; [exact Hcl|]. constructor; [|constructor].
  unfold clause_wf, from_loop, source_ok, make_clause.
  cbn [text source title clause_id].
  split; [split; [now apply join_line_ok|] |].
  - destruct (st_source st); try contradiction; try exact Hsrc.
    destruct Hsrc as (Ht & l & rest & Hc & Hm). split; [exact Ht|].
    rewrite Hc. now apply number_pattern_join.
  - destruct (st_source st); try contradiction; split; discriminate.
Qed.

Lemma loop_step_wf (st : loop_state) (raw : string) :
  loop_wf st -> loop_wf (loop_step st raw).
Proof.
  intros H. pose proof (appended_wf st H) as Happ.
  destruct H as (Hcl & Hcur & Hsrc).
  unfold loop_step. destruct (strip raw) as [|c l] eqn:E;
    [repeat split; assumption|].
  assert (Hline : line_ok (String c l))
    by (rewrite <- E; apply strip_line_ok; rewrite E; discriminate).
  destruct (_is_heading (String c l)) eqn:Eh.
  - destruct (st_current st) eqn:Ec; unfold loop_wf;
      cbn [st_clauses st_current st_source st_title];
      (split; [|split; [constructor | eexists; split; [reflexivity|exact Eh]]]).
    + exact Hcl.
    + apply Happ. discriminate.
  - destruct (number_pattern_match (String c l)) eqn:En.
    + destruct (st_current st) eqn:Ec; unfold loop_wf;
        cbn [st_clauses st_current st_source st_title];
        (split; [|split; [constructor; [exact Hline | constructor]
                         | split; [reflexivity
                                  | eexists; eexists; split;
                                    [reflexivity | exact En]]]]).
      * exact Hcl.
      * apply Happ. discriminate.
    + unfold loop_wf. cbn [st_clauses st_current st_source st_title st_clause_id].
      split; [exact Hcl|]. split.
      * apply Forall_app. split; [exact Hcur|].
        constructor; [exact Hline | constructor].
      * destruct (st_source st); try contradiction; try exact Hsrc.
        destruct Hsrc as (Ht & l0 & rest & Hc & Hm). split; [exact Ht|].
        exists l0, (rest ++ [String c l])%list. rewrite Hc. now split.
Qed.

Lemma loop_wf_fold (lines : list string) (st : loop_state) :
  loop_wf st -> loop_wf (fold_left loop_step lines st).
Proof.
  revert st. induction lines as [|raw lines IH]; intros st H; [exact H|].
  cbn [fold_left]. apply IH. now apply loop_step_wf.
Qed.

Lemma paragraph_wf (lines : list string) :
  Forall (fun c => clause_wf c /\ from_loop c) (paragraph_clauses lines).
Proof.
  assert (H : loop_wf (fold_left loop_step lines loop_init)).
  { apply loop_wf_fold. repeat split; constructor. }
  unfold paragraph_clauses. cbv zeta.
  destruct (st_current _) eqn:E; [apply H|].
  apply appended_wf; [exact H | rewrite E; discriminate].
Qed.

Lemma long_nonempty (s : string) (n : nat) :
  (n <= length s)%nat -> (0 < n)%nat -> s <> "".
Proof. destruct s; cbn; [lia | discriminate]. Qed.

Lemma sentence_clauses_wf (sentences : list (option string)) :
  forall (idx : Z) (cs : list clause),
    sentence_clauses idx sentences = Returns cs ->
    Forall (fun c => clause_wf c /\ source c = src_sentence_split) cs.
Proof.
  induction sentences as [|[s|] rest IH]; intros idx cs H;
    cbn [sentence_clauses] in H; cbv zeta in H.
  - injection H as <-. constructor.
  - destruct (sentence_clauses (idx + 1) rest) as [new|] eqn:E;
      [|discriminate].
    specialize (IH _ _ E).
    destruct (Nat.ltb_spec (length (strip s)) 40); injection H as <-;
      [assumption|].
    constructor; [|assumption].
    unfold clause_wf, source_ok, make_clause. cbn [text source title].
    split; [split; [|split; [reflexivity | assumption]] | reflexivity].
    apply strip_line_ok. eapply long_nonempty; [eassumption | lia].
  - discriminate.
Qed.

Lemma rebuilt_clauses_wf (rough : list string) :
  forall cid,
    Forall (fun c => clause_wf c /\ source c = src_ocr_fallback)
           (rebuilt_clauses cid rough).
Proof.
  induction rough as [|s rough IH]; intros cid; cbn [rebuilt_clauses];
    [constructor|]. cbv zeta.
  destruct (Nat.ltb_spec (length (strip s)) 25); [apply IH|].
  constructor; [|apply IH].
  unfold clause_wf, source_ok, make_clause. cbn [text source title].
  split; [split; [|split; [reflexivity | assumption]] | reflexivity].
  apply strip_line_ok. eapply long_nonempty; [eassumption | lia].
Qed.

(** The three ways in which [extract_clauses] returns. *)
Lemma extract_clauses_cases (doc : string) (cs : list clause) :
  extract_clauses doc = Returns cs ->
  cs = paragraph_clauses (split_nl (clean_text doc)) \/
  ((2 <= List.length cs)%nat /\
   exists idx sentences, sentence_clauses idx sentences = Returns cs) \/
  ((3 <= List.length cs)%nat /\
   exists rough, cs = rebuilt_clauses 1 rough).
Proof.
  unfold extract_clauses. cbv zeta. intros H.
  assert (Ho : forall cl,
             ocr_or_paragraph (clean_text doc) cl = cl \/
             ((3 <= List.length (ocr_or_paragraph (clean_text doc) cl))%nat /\
              exists rough,
                ocr_or_paragraph (clean_text doc) cl
                = rebuilt_clauses 1 rough)).
  { intros cl. unfold ocr_or_paragraph. cbv zeta.
    destruct (Nat.leb_spec 3 (List.length
      (rebuilt_clauses 1 (rough_split (strip (clean_text doc))))));
      [right; split; [assumption | eexists; reflexivity] | now left]. }
  destruct (paragraph_clauses (split_nl (clean_text doc)))
    as [|c1 [|c2 rest]] eqn:Ep.
  - injection H as <-. now left.
  - destruct (3 <=? _)%nat.
    + destruct (sentence_clauses 1 _) as [new|] eqn:E; [|discriminate].
      destruct (Nat.ltb_spec 1 (List.length new)).
      * injection H as <-. right. left. split; [lia|].
        eexists; eexists; exact E.
      * injection H as <-. destruct (Ho [c1]) as [-> | Hr];
          [now left | now right; right].
    + injection H as <-. destruct (Ho [c1]) as [-> | Hr];
        [now left | now right; right].
  - injection H as <-. now left.
Qed.

Lemma extract_clauses_wf (doc : string) (cs : list clause) :
  extract_clauses doc = Returns cs -> Forall clause_wf cs.
Proof.
  intros H.
  destruct (extract_clauses_cases doc cs H)
    as [-> | [(_ & idx & ss & E) | (_ & rough & ->)]].
  - eapply Forall_impl; [|apply paragraph_wf]. now intros c [Hc _].
  - eapply Forall_impl; [|eapply sentence_clauses_wf, E]. now intros c [Hc _].
  - eapply Forall_impl; [|apply rebuilt_clauses_wf]. now intros c [Hc _].
Qed.

(** X1: every clause returned by extract_clauses has a text that is
    non-empty and carries no leading or trailing whitespace. *)
Theorem clause_texts_trimmed (doc : string) (cs : list clause) :
  extract_clauses doc = Returns cs ->
  Forall (fun c => text c <> "" /\ strip (text c) = text c) cs.
Proof.
  intros H. eapply Forall_impl; [|eapply extract_clauses_wf, H].
  intros c [Hl _]. split; [apply Hl | now apply line_ok_strip].
Qed.

(** X2: in every returned sequence a clause has a title exactly when its
    source tag is "heading", and the title is then a heading line (upper
    case, 6 to 60 characters after trimming). *)
Theorem title_iff_heading (doc : string) (cs : list clause) :
  extract_clauses doc = Returns cs ->
  Forall (fun c => match title c with
                   | Some h => source c = src_heading /\ _is_heading h = true
                   | None => source c <> src_heading
                   end) cs.
Proof.
  intros H. eapply Forall_impl; [|eapply extract_clauses_wf, H].
  intros c [_ Hs]. unfold source_ok in Hs.
  destruct (source c); try (destruct Hs as [-> _]; discriminate).
  destruct Hs as (h & -> & Hh). now split.
Qed.

(** X3: a returned clause tagged "numbered" begins with its ordinal marker
    (the text itself matches the number pattern), and a clause tagged
    "paragraph" is the text before any heading or numbered line: its
    identifier is 1. *)
Theorem numbered_and_paragraph_tags (doc : string) (cs : list clause) :
  extract_clauses doc = Returns cs ->
  Forall (fun c =>
            (source c = src_numbered ->
             number_pattern_match (text c) = true) /\
            (source c = src_paragraph -> clause_id c = 1%Z)) cs.
Proof.
  intros H. eapply Forall_impl; [|eapply extract_clauses_wf, H].
  intros c [_ Hs]. unfold source_ok in Hs.
  destruct (source c); split; intros E; try discriminate E; apply Hs.
Qed.

Lemma Forall_Exists_tag (cs : list clause) (P Q : clause -> Prop) :
  Forall P cs -> Exists Q cs -> exists c, P c /\ Q c.
Proof.
  intros HP HQ. apply Exists_exists in HQ as (c & Hin & Hq).
  exists c. split; [|exact Hq]. rewrite Forall_forall in HP. auto.
Qed.

(** X4: a returned sequence that holds a clause tagged "sentence-split"
    holds only such clauses, at least two, each of at least 40 characters;
    one that holds a clause tagged "ocr-fallback" holds only such clauses,
    at least three, each of at least 25 characters. *)
Theorem fallback_results_uniform (doc : string) (cs : list clause) :
  extract_clauses doc = Returns cs ->
  (Exists (fun c => source c = src_sentence_split) cs ->
   (2 <= List.length cs)%nat /\
   Forall (fun c => source c = src_sentence_split /\
                    (40 <= length (text c))%nat) cs) /\
  (Exists (fun c => source c = src_ocr_fallback) cs ->
   (3 <= List.length cs)%nat /\
   Forall (fun c => source c = src_ocr_fallback /\
                    (25 <= length (text c))%nat) cs).
Proof.
  intros H.
  destruct (extract_clauses_cases doc cs H)
    as [-> | [(Hlen & idx & ss & E) | (Hlen & rough & ->)]].
  - split; intros Hex;
      destruct (Forall_Exists_tag _ _ _ (paragraph_wf _) Hex)
        as (c & [_ [H1 H2]] & Hq); congruence.
  - pose proof (sentence_clauses_wf _ _ _ E) as Hwf. split; intros Hex.
    + split; [exact Hlen|]. eapply Forall_impl; [|exact Hwf].
      intros c [[_ Hs] Hsrc]. unfold source_ok in Hs. rewrite Hsrc in Hs.
      split; [exact Hsrc | apply Hs].
    + destruct (Forall_Exists_tag _ _ _ Hwf Hex) as (c & [_ H1] & Hq).
      congruence.
  - pose proof (rebuilt_clauses_wf rough 1) as Hwf. split; intros Hex.
    + destruct (Forall_Exists_tag _ _ _ Hwf Hex) as (c & [_ H1] & Hq).
      congruence.
    + split; [exact Hlen|]. eapply Forall_impl; [|exact Hwf].
      intros c [[_ Hs] Hsrc]. unfold source_ok in Hs. rewrite Hsrc in Hs.
      split; [exact Hsrc | apply Hs].
Qed.

Lemma clause_texts_trimmed_witness :
  extract_clauses sample_lease
  = Returns (paragraph_clauses (split_nl (clean_text sample_lease))) /\
  Forall (fun c => text c <> "" /\ strip (text c) = text c)
         (paragraph_clauses (split_nl (clean_text sample_lease))).
Proof.
  split; [vm_compute; reflexivity|].
  apply (clause_texts_trimmed sample_lease). vm_compute. reflexivity.
Defined.

Lemma title_iff_heading_witness :
  extract_clauses sample_lease
  = Returns (paragraph_clauses (split_nl (clean_text sample_lease))) /\
  Forall (fun c => match title c with
                   | Some h => source c = src_heading /\ _is_heading h = true
                   | None => source c <> src_heading
                   end)
         (paragraph_clauses (split_nl (clean_text sample_lease))).
Proof.
  split; [vm_compute; reflexivity|].
  apply (title_iff_heading sample_lease). vm_compute. reflexivity.
Defined.

Lemma numbered_and_paragraph_tags_witness :
  extract_clauses sample_lease
  = Returns (paragraph_clauses (split_nl (clean_text sample_lease))) /\
  Forall (fun c =>
            (source c = src_numbered ->
             number_pattern_match (text c) = true) /\
            (source c = src_paragraph -> clause_id c = 1%Z))
         (paragraph_clauses (split_nl (clean_text sample_lease))).
Proof.
  split; [vm_compute; reflexivity|].
  apply (numbered_and_paragraph_tags sample_lease). vm_compute. reflexivity.
Defined.

Lemma fallback_results_uniform_witness :
  exists cs,
    extract_clauses sample_employment = Returns cs /\
    Exists (fun c => source c = src_sentence_split) cs /\
    (2 <= List.length cs)%nat /\
    Forall (fun c => source c = src_sentence_split /\
                     (40 <= length (text c))%nat) cs.
Proof.
  eexists. split; [vm_compute; reflexivity|].
  assert (Hex : Exists (fun c => source c = src_sentence_split)
                  (match extract_clauses sample_employment with
                   | Returns cs => cs
                   | AttributeError => []
                   end))
    by (vm_compute; constructor; reflexivity).
  split; [exact Hex|].
  refine (proj1 (fallback_results_uniform sample_employment _ _) Hex).
  vm_compute. reflexivity.
Defined.

End ShapeFacts.

(* ----------------------------------------------------------------- *)
(** ** Segmenter: what the returned clauses cover *)

Module CoverageOutcome.
Import ClauseExtractor SegmentNotions ShapeNotions.

(** The sentence split keeps, in order, the trimmed elements of the split
    list that have at least 40 characters. *)
Lemma sentence_clauses_texts (sentences : list (option string)) :
  forall (idx : Z) (cs : list clause),
    sentence_clauses idx sentences = Returns cs ->
    map text cs = kept 40 (map piece_text sentences).
Proof.
  induction sentences as [|[s|] rest IH]; intros idx cs H;
    cbn [sentence_clauses] in H; cbv zeta in H.
  - injection H as <-. reflexivity.
  - destruct (sentence_clauses (idx + 1) rest) as [new|] eqn:E;
      [|discriminate].
    specialize (IH _ _ E). unfold kept in *. cbn [map filter piece_text].
    destruct (Nat.ltb_spec (length (strip s)) 40) as [Hlt|Hge];
      injection H as <-.
    + destruct (Nat.leb_spec 40 (length (strip s))); [lia | exact IH].
    + destruct (Nat.leb_spec 40 (length (strip s))); [|lia].
      cbn [map text make_clause]. now rewrite IH.
  - discriminate.
Qed.

(** The degraded-text fallback keeps, in order, the trimmed pieces that
    have at least 25 characters. *)
Lemma rebuilt_clauses_texts (rough : list string) :
  forall cid, map text (rebuilt_clauses cid rough) = kept 25 rough.
Proof.
  induction rough as [|s rough IH]; intros cid; [reflexivity|].
  cbn [rebuilt_clauses]. cbv zeta. unfold kept in *. cbn [map filter].
  destruct (Nat.ltb_spec (length (strip s)) 25) as [Hlt|Hge].
  - destruct (Nat.leb_spec 25 (length (strip s))); [lia | apply IH].
  - destruct (Nat.leb_spec 25 (length (strip s))); [|lia].
    cbn [map text make_clause]. now rewrite IH.
Qed.

(** Where a returned sequence comes from. *)
Lemma extract_clauses_origin (doc : string) (cs : list clause) :
  extract_clauses doc = Returns cs ->
  cs = paragraph_clauses (split_nl (clean_text doc)) \/
  (exists only,
      paragraph_clauses (split_nl (clean_text doc)) = [only] /\
      sentence_clauses 1 (sentence_split (text only)) = Returns cs /\
      (2 <= List.length cs)%nat) \/
  (exists only,
      paragraph_clauses (split_nl (clean_text doc)) = [only] /\
      cs = rebuilt_clauses 1 (rough_split (strip (clean_text doc))) /\
      (3 <= List.length cs)%nat).
Proof.
  unfold extract_clauses. cbv zeta. intros H.
  assert (Ho : forall only,
             ocr_or_paragraph (clean_text doc) [only] = [only] \/
             (ocr_or_paragraph (clean_text doc) [only]
              = rebuilt_clauses 1 (rough_split (strip (clean_text doc))) /\
              (3 <= List.length
                      (ocr_or_paragraph (clean_text doc) [only]))%nat)).
  { intros only. unfold ocr_or_paragraph. cbv zeta.
    destruct (Nat.leb_spec 3 (List.length
      (rebuilt_clauses 1 (rough_split (strip (clean_text doc))))));
      [right; split; [reflexivity | assumption] | now left]. }
  destruct (paragraph_clauses (split_nl (clean_text doc)))
    as [|c1 [|c2 rest]] eqn:Ep.
  - injection H as <-. now left.
  - destruct (3 <=? _)%nat.
    + destruct (sentence_clauses 1 _) as [new|] eqn:E; [|discriminate].
      destruct (Nat.ltb_spec 1 (List.length new)).
      * injection H as <-. right. left. exists c1.
        split; [reflexivity | split; [exact E | lia]].
      * injection H as <-. destruct (Ho c1) as [-> | [Hr Hl]];
          [now left | right; right; exists c1; now repeat split].
    + injection H as <-. destruct (Ho c1) as [-> | [Hr Hl]];
        [now left | right; right; exists c1; now repeat split].
  - injection H as <-. now left.
Qed.

Lemma loop_tags_exclude (cs : list clause) (P : clause -> Prop) :
  Forall (fun c => clause_wf c /\ from_loop c) cs ->
  (forall c, P c -> ~ from_loop c) ->
  ~ Exists P cs.
Proof.
  intros Hf Hp Hex.
  destruct (ShapeFacts.Forall_Exists_tag _ _ _ Hf Hex) as (c & [_ Hl] & Hc).
  exact (Hp c Hc Hl).
Qed.

Lemma fallback_tags_exclude (cs : list clause) (tag : source_tag) :
  (tag = src_sentence_split \/ tag = src_ocr_fallback) ->
  Forall (fun c => source c = tag) cs ->
  (1 <= List.length cs)%nat ->
  ~ Forall from_loop cs.
Proof.
  intros Ht Hs Hlen Hl. destruct cs as [|c cs]; [cbn in Hlen; lia|].
  apply Forall_inv in Hs. apply Forall_inv in Hl. destruct Hl as [H1 H2].
  destruct Ht as [E|E]; rewrite E in Hs; contradiction.
Qed.

(** C2 as stated fails, twice.  "SECTION ONE" is a non-empty text that
    normalization leaves unchanged; its only line is a heading, and
    extract_clauses returns the empty sequence.  And in the four-line text
    [sample_tenancy], also left unchanged by normalization, the line "Rent
    is due." is in no returned clause: the degraded-text fallback keeps
    only the three pieces of at least 25 characters. *)
Lemma C2_lines_not_covered :
  ("SECTION ONE" <> "" /\
   clean_text "SECTION ONE" = "SECTION ONE" /\
   extract_clauses "SECTION ONE" = Returns []) /\
  (clean_text sample_tenancy = sample_tenancy /\
   In "Rent is due." (split_nl sample_tenancy) /\
   exists cs,
     extract_clauses sample_tenancy = Returns cs /\
     map text cs
     = ["The tenant shall keep the premises clean.";
        "The landlord may inspect the premises monthly.";
        "The deposit is refundable at the end of the lease."] /\
     contains "Rent is due." (join_space (map text cs)) = false).
Proof.
  split.
  - repeat split; [discriminate | vm_compute; reflexivity ..].
  - split; [vm_compute; reflexivity|]. split; [vm_compute; tauto|].
    eexists. split; [vm_compute; reflexivity|].
    split; vm_compute; reflexivity.
Qed.

(** C2 (amended).  A body line is a trimmed, non-blank line of the
    normalized text that is not a heading.  For every input text: the
    clauses of the paragraph strategy are the single-space joins of
    consecutive non-empty groups of the body lines, so that their texts
    joined in emission order are the body lines joined; that sequence is
    empty exactly when there is no body line; and extract_clauses returns
    it whenever it does not consist of exactly one clause.  And for every
    sequence that extract_clauses returns: it is empty exactly when there is
    no body line; if none of its clauses is tagged "sentence-split" or
    "ocr-fallback", it is the sequence of the paragraph strategy, so its
    texts joined are the body lines joined, also when it is a single
    clause; if it holds a clause tagged "sentence-split", its texts are, in
    order, the trimmed elements of at least 40 characters of the split of
    the joined body lines; and if it holds a clause tagged "ocr-fallback",
    its texts are, in order, the trimmed pieces of at least 25 characters of
    the split of the normalized text. *)
Theorem C2_paragraph_coverage (doc : string) :
  let lines := body_lines (split_nl (clean_text doc)) in
  let ps := paragraph_clauses (split_nl (clean_text doc)) in
  (exists groups,
      Forall (fun g => g <> []) groups /\
      List.concat groups = lines /\
      map text ps = map join_space groups) /\
  join_space (map text ps) = join_space lines /\
  (ps = [] <-> lines = []) /\
  (List.length ps <> 1%nat -> extract_clauses doc = Returns ps) /\
  forall cs,
    extract_clauses doc = Returns cs ->
    (cs = [] <-> lines = []) /\
    (Forall from_loop cs ->
     cs = ps /\ join_space (map text cs) = join_space lines) /\
    (Exists (fun c => source c = src_sentence_split) cs ->
     map text cs
     = kept 40 (map piece_text (sentence_split (join_space lines)))) /\
    (Exists (fun c => source c = src_ocr_fallback) cs ->
     map text cs = kept 25 (rough_split (strip (clean_text doc)))).
Proof.
  cbv zeta.
  destruct (CoverageFacts.paragraph_coverage (split_nl (clean_text doc)))
    as (Hgroups & Hjoin & Hempty).
  pose proof (ShapeFacts.paragraph_wf (split_nl (clean_text doc))) as Hwf.
  split; [exact Hgroups|]. split; [exact Hjoin|]. split; [exact Hempty|].
  split.
  { intros Hlen. unfold extract_clauses. cbv zeta.
    destruct (paragraph_clauses (split_nl (clean_text doc)))
      as [|c1 [|c2 cs]]; [reflexivity | | reflexivity].
    cbn in Hlen. congruence. }
  intros cs H.
  destruct (extract_clauses_origin doc cs H)
    as [-> | [(only & Hp & Hs & Hlen) | (only & Hp & -> & Hlen)]].
  - split; [exact Hempty|]. split; [now intros _|].
    split; intros Hex; exfalso;
      revert Hex; apply (loop_tags_exclude _ _ Hwf);
      intros c Hc [H1 H2]; contradiction.
  - pose proof (FallbackFacts.sentence_clauses_source _ _ _ Hs) as Hsrc.
    assert (Hbody : body_lines (split_nl (clean_text doc)) <> []).
    { intros E. apply Hempty in E. rewrite E in Hp. discriminate. }
    split; [|split; [|split]].
    + split; intros E; [subst cs; cbn in Hlen; lia | contradiction].
    + intros Hl. exfalso. revert Hl.
      apply (fallback_tags_exclude cs src_sentence_split);
        [now left | exact Hsrc | lia].
    + intros _.
      rewrite <- (CoverageFacts.single_clause_text _ _ Hp).
      eapply sentence_clauses_texts, Hs.
    + intros Hex.
      destruct (ShapeFacts.Forall_Exists_tag _ _ _ Hsrc Hex) as (c & E1 & E2).
      congruence.
  - pose proof (ShapeFacts.rebuilt_clauses_wf
                  (rough_split (strip (clean_text doc))) 1) as Hr.
    assert (Hsrc : Forall (fun c => source c = src_ocr_fallback)
                     (rebuilt_clauses 1
                        (rough_split (strip (clean_text doc)))))
      by (eapply Forall_impl; [|exact Hr]; now intros c [_ Hc]).
    assert (Hbody : body_lines (split_nl (clean_text doc)) <> []).
    { intros E. apply Hempty in E. rewrite E in Hp. discriminate. }
    split; [|split; [|split]].
    + split; intros E; [rewrite E in Hlen; cbn in Hlen; lia | contradiction].
    + intros Hl. exfalso. revert Hl.
      apply (fallback_tags_exclude _ src_ocr_fallback);
        [now right | exact Hsrc | lia].
    + intros Hex.
      destruct (ShapeFacts.Forall_Exists_tag _ _ _ Hsrc Hex) as (c & E1 & E2).
      congruence.
    + intros _. apply rebuilt_clauses_texts.
Qed.

Lemma C2_paragraph_coverage_witness :
  extract_clauses sample_items
  = Returns (paragraph_clauses (split_nl (clean_text sample_items))) /\
  exists only,
    extract_clauses sample_receipt = Returns [only] /\
    [only] = paragraph_clauses (split_nl (clean_text sample_receipt)) /\
    join_space (map text [only])
    = join_space (body_lines (split_nl (clean_text sample_receipt))).
Proof.
  split.
  - apply (proj1 (proj2 (proj2 (proj2 (C2_paragraph_coverage sample_items))))).
    vm_compute. discriminate.
  - eexists. split; [vm_compute; reflexivity|].
    refine (proj1 (proj2 (proj2 (proj2 (proj2 (proj2
              (C2_paragraph_coverage sample_receipt)))) _ _)) _).
    + vm_compute. reflexivity.
    + constructor; [split; discriminate | constructor].
Defined.

End CoverageOutcome.

(* ----------------------------------------------------------------- *)
(** ** Segmenter: identifiers, normalization and line structure *)

Module SegmentFacts.
Import ClauseExtractor SegmentNotions ShapeNotions.

Lemma ascending_weaken (ids : list Z) (lo lo' : Z) :
  (lo' <= lo)%Z -> ascending lo ids -> ascending lo' ids.
Proof. destruct ids; cbn; [auto|]. intros H [H1 H2]. split; [lia | exact H2]. Qed.

Lemma ascending_count_from (n : nat) :
  forall k, ascending k (count_from k n).
Proof.
  induction n as [|n IH]; intros k; cbn; [exact I|]. split; [lia | apply IH].
Qed.

Lemma ascending_bounds (ids : list Z) :
  forall lo, ascending lo ids -> Forall (fun x => (lo <= x)%Z) ids /\ NoDup ids.
Proof.
  induction ids as [|x r IH]; intros lo H; [split; constructor|].
  destruct H as [Hx Hr]. destruct (IH _ Hr) as [Hall Hnd]. split.
  - constructor; [exact Hx|]. eapply Forall_impl; [|exact Hall].
    cbn. intros; lia.
  - constructor; [|exact Hnd]. intros Hin.
    rewrite Forall_forall in Hall. specialize (Hall _ Hin). lia.
Qed.

Lemma sentence_clauses_ascending (sentences : list (option string)) :
  forall (idx : Z) (cs : list clause),
    sentence_clauses idx sentences = Returns cs ->
    ascending idx (map clause_id cs).
Proof.
  induction sentences as [|[s|] rest IH]; intros idx cs H;
    cbn [sentence_clauses] in H; cbv zeta in H.
  - injection H as <-. exact I.
  - destruct (sentence_clauses (idx + 1) rest) as [new|] eqn:E;
      [|discriminate].
    specialize (IH _ _ E).
    destruct (length (strip s) <? 40)%nat; injection H as <-.
    + eapply ascending_weaken; [|exact IH]. lia.
    + cbn. split; [lia | exact IH].
  - discriminate.
Qed.

(** X5: in every sequence returned by extract_clauses, whichever strategy
    produced it, the identifiers are positive and strictly increasing, hence
    pairwise distinct. *)
Theorem clause_ids_increasing (doc : string) (cs : list clause) :
  extract_clauses doc = Returns cs ->
  ascending 1 (map clause_id cs) /\
  Forall (fun x => (1 <= x)%Z) (map clause_id cs) /\
  NoDup (map clause_id cs).
Proof.
  intros H.
  assert (Ha : ascending 1 (map clause_id cs)).
  { unfold extract_clauses in H. cbv zeta in H.
    pose proof (FallbackFacts.paragraph_ids (split_nl (clean_text doc))) as Hp.
    assert (Ho : forall cl, ascending 1 (map clause_id cl) ->
               ascending 1 (map clause_id
                              (ocr_or_paragraph (clean_text doc) cl))).
    { intros cl Hcl. unfold ocr_or_paragraph. cbv zeta.
      destruct (3 <=? _)%nat; [|exact Hcl].
      rewrite FallbackFacts.rebuilt_ids. apply ascending_count_from. }
    assert (Hpa : ascending 1 (map clause_id
                     (paragraph_clauses (split_nl (clean_text doc)))))
      by (rewrite Hp; apply ascending_count_from).
    destruct (paragraph_clauses (split_nl (clean_text doc)))
      as [|c1 [|c2 rest]].
    - now injection H as <-.
    - destruct (3 <=? _)%nat.
      + destruct (sentence_clauses 1 _) as [new|] eqn:E; [|discriminate].
        destruct (1 <? List.length new)%nat; injection H as <-.
        * eapply sentence_clauses_ascending, E.
        * now apply Ho.
      + injection H as <-. now apply Ho.
    - now injection H as <-. }
  split; [exact Ha | apply ascending_bounds, Ha].
Qed.

Lemma clause_ids_increasing_witness :
  exists cs,
    extract_clauses sample_employment = Returns cs /\
    map clause_id cs = [1; 3; 5]%Z /\
    NoDup (map clause_id cs).
Proof.
  eexists. split; [vm_compute; reflexivity|].
  split; [vm_compute; reflexivity|].
  refine (proj2 (proj2 (clause_ids_increasing sample_employment _ _))).
  vm_compute. reflexivity.
Defined.

(** X8: normalizing a document before the call changes nothing:
    extract_clauses of the normalized text is extract_clauses of the text. *)
Theorem extract_after_clean_text (doc : string) :
  extract_clauses (clean_text doc) = extract_clauses doc.
Proof.
  unfold extract_clauses.
  destruct (CleanFacts.clean_text_shape doc) as (Ht & Hc & Hn & Hs & Hst).
  now rewrite (CleanFacts.clean_text_fixed _ Ht Hc Hn Hs Hst).
Qed.

Lemma is_heading_strip (l : string) : _is_heading (strip l) = _is_heading l.
Proof. unfold _is_heading. now rewrite CleanFacts.strip_idempotent. Qed.

Lemma is_heading_nonempty (l : string) :
  _is_heading l = true -> strip l <> "".
Proof.
  unfold _is_heading. cbv zeta. intros H E. rewrite E in H. discriminate H.
Qed.

(** Without heading and numbered lines the loop only collects lines. *)
Lemma loop_plain (lines : list string) :
  Forall (fun l => _is_heading l = false /\
                   number_pattern_match (strip l) = false) lines ->
  forall cur,
    fold_left loop_step lines (LoopState [] cur None 1 src_paragraph)
    = LoopState [] (cur ++ body_lines lines) None 1 src_paragraph.
Proof.
  induction 1 as [|raw lines [Hh Hn] _ IH]; intros cur.
  - cbn. now rewrite app_nil_r.
  - cbn [fold_left]. rewrite CoverageFacts.body_lines_cons.
    unfold body_lines at 1. cbn [map filter]. unfold loop_step.
    rewrite <- is_heading_strip in Hh.
    destruct (strip raw) as [|c l] eqn:E.
    + cbn. apply IH.
    + rewrite Hh, Hn. cbn [String.eqb negb andb st_clauses st_current
                            st_title st_clause_id st_source].
      rewrite IH, <- app_assoc. reflexivity.
Qed.

(** X9: a document without heading lines and without numbered lines is one
    clause for the line loop, however many blank lines separate its
    paragraphs: the loop yields no clause when every line is blank, and
    otherwise the single clause numbered 1, tagged "paragraph", whose text
    is all non-blank lines joined by single spaces. *)
Theorem unmarked_document_is_one_clause (lines : list string) :
  Forall (fun l => _is_heading l = false /\
                   number_pattern_match (strip l) = false) lines ->
  paragraph_clauses lines
  = match body_lines lines with
    | [] => []
    | _ :: _ =>
        [make_clause 1 None (join_space (body_lines lines)) src_paragraph]
    end.
Proof.
  intros H. unfold paragraph_clauses. cbv zeta.
  change loop_init with (LoopState [] [] None 1 src_paragraph).
  rewrite (loop_plain lines H []). cbn [app st_current st_clauses appended].
  destruct (body_lines lines); reflexivity.
Qed.

Lemma unmarked_document_is_one_clause_witness :
  paragraph_clauses
    ["The parties agree to the terms below."; ""; "  ";
     "Rent is due on the first day of each month."]
  = [make_clause 1 None
       "The parties agree to the terms below. Rent is due on the first day of each month."
       src_paragraph].
Proof.
  apply (unmarked_document_is_one_clause
           ["The parties agree to the terms below."; ""; "  ";
            "Rent is due on the first day of each month."]).
  repeat constructor.
Defined.

(** One step on a heading line followed by one step on a numbered line
    leaves the state that the numbered line alone would leave. *)
Lemma heading_then_numbered (st : loop_state) (h n : string) :
  _is_heading h = true ->
  _is_heading n = false -> number_pattern_match (strip n) = true ->
  loop_step (loop_step st h) n = loop_step st n.
Proof.
  intros Hh Hn Hm. pose proof (is_heading_nonempty h Hh) as Hne.
  rewrite <- is_heading_strip in Hh, Hn.
  unfold loop_step.
  destruct (strip h) as [|c l] eqn:Eh; [congruence|]. rewrite Hh.
  destruct (strip n) as [|c' l'] eqn:En; [discriminate Hm|].
  rewrite Hn, Hm.
  destruct (st_current st); reflexivity.
Qed.

(** X10: a heading line directly followed by a numbered line leaves no
    trace: the clauses of the line loop are those of the document without
    that heading line (its text is in no title and in no clause text). *)
Theorem heading_before_number_is_dropped (pre post : list string)
        (h n : string) :
  _is_heading h = true ->
  _is_heading n = false -> number_pattern_match (strip n) = true ->
  paragraph_clauses (pre ++ h :: n :: post)
  = paragraph_clauses (pre ++ n :: post).
Proof.
  intros Hh Hn Hm. unfold paragraph_clauses. cbv zeta.
  rewrite !fold_left_app. cbn [fold_left].
  now rewrite (heading_then_numbered _ h n Hh Hn Hm).
Qed.

Lemma heading_before_number_is_dropped_witness :
  paragraph_clauses
    (["This lease is made at Chennai."]
       ++ "PAYMENT TERMS" :: "1. The tenant shall pay rent monthly." :: [])
  = paragraph_clauses
      (["This lease is made at Chennai."]
         ++ "1. The tenant shall pay rent monthly." :: []).
Proof.
  apply (heading_before_number_is_dropped
           ["This lease is made at Chennai."] []
           "PAYMENT TERMS" "1. The tenant shall pay rent monthly.");
    reflexivity.
Defined.

(** *** Normalization touches whitespace only *)

Lemma visible_app (a b : string) : visible (a ++ b) = visible a ++ visible b.
Proof.
  induction a as [|c a IH]; cbn; [reflexivity|].
  destruct (isspace c); cbn; now rewrite IH.
Qed.

Lemma visible_repeat (c : ascii) (n : nat) :
  isspace c = true -> visible (repeat_char c n) = "".
Proof. intros H. induction n as [|n IH]; cbn; [reflexivity | now rewrite H]. Qed.

Lemma visible_replace (a b : ascii) (s : string) :
  isspace a = true -> isspace b = true ->
  visible (replace_char a b s) = visible s.
Proof.
  intros Ha Hb. induction s as [|c s IH]; cbn; [reflexivity|].
  destruct (Ascii.eqb_spec c a) as [->|Hc]; rewrite ?Ha, ?Hb, IH; reflexivity.
Qed.

Lemma visible_sub_runs (c : ascii) (lo keep : nat) (s : string) :
  isspace c = true ->
  forall n, visible (sub_runs c lo keep n s) = visible s.
Proof.
  intros Hc. induction s as [|a s IH]; intros n; cbn [sub_runs].
  - apply visible_repeat, Hc.
  - destruct (Ascii.eqb_spec a c) as [->|Hac].
    + rewrite IH. cbn. now rewrite Hc.
    + rewrite visible_app. unfold flush_run.
      rewrite (visible_repeat _ _ Hc). cbn. now rewrite IH.
Qed.

Lemma visible_lstrip (s : string) : visible (lstrip s) = visible s.
Proof.
  induction s as [|c s IH]; cbn; [reflexivity|].
  destruct (isspace c) eqn:E; [exact IH | cbn; now rewrite E].
Qed.

Lemma visible_rstrip (s : string) : visible (rstrip s) = visible s.
Proof.
  induction s as [|c s IH]; cbn [rstrip visible]; [reflexivity|].
  destruct (rstrip s) as [|b u] eqn:E.
  - cbn [visible] in IH. destruct (isspace c) eqn:Ec; cbn [visible];
      [exact IH | now rewrite Ec, <- IH].
  - rewrite <- IH. reflexivity.
Qed.

(** X11: clean_text only touches whitespace: the non-whitespace characters
    of the normalized text are those of the input, in the same order. *)
Theorem clean_text_keeps_visible (t : string) :
  visible (clean_text t) = visible t.
Proof.
  destruct t as [|a s]; [reflexivity|].
  rewrite CleanFacts.clean_text_nonempty. unfold collapsed, strip.
  rewrite visible_rstrip, visible_lstrip.
  rewrite !visible_sub_runs by reflexivity.
  rewrite !visible_replace by reflexivity. reflexivity.
Qed.

End SegmentFacts.

(* ----------------------------------------------------------------- *)
(** ** Segmenter: the fallbacks on a sample *)

Module FallbackSamples.
Import ClauseExtractor SegmentNotions ShapeNotions.

Lemma ids_consecutive_outside_sentence_split_witness :
  extract_clauses sample_lease
  = Returns (paragraph_clauses (split_nl (clean_text sample_lease))) /\
  map clause_id (paragraph_clauses (split_nl (clean_text sample_lease)))
  = [1; 2; 3]%Z.
Proof.
  split; [vm_compute; reflexivity|].
  rewrite (FallbackFacts.ids_consecutive_outside_sentence_split sample_lease).
  - vm_compute. reflexivity.
  - vm_compute. reflexivity.
  - vm_compute. repeat constructor; discriminate.
Defined.

Lemma sentence_split_adoption_witness :
  exists only new,
    paragraph_clauses (split_nl (clean_text sample_employment)) = [only] /\
    sentence_clauses 1 (sentence_split (text only)) = Returns new /\
    (2 <= List.length new)%nat /\
    extract_clauses sample_employment = Returns new /\
    Forall (fun c => source c = src_sentence_split) new.
Proof.
  assert (Hp : paragraph_clauses (split_nl (clean_text sample_employment))
               = [make_clause 1 None sample_employment src_paragraph])
    by (vm_compute; reflexivity).
  assert (Hs : exists new,
             sentence_clauses 1
               (sentence_split
                  (text (make_clause 1 None sample_employment src_paragraph)))
             = Returns new /\ (2 <= List.length new)%nat).
  { eexists. split; [vm_compute; reflexivity | vm_compute; lia]. }
  destruct Hs as (new & Hs & Hlen).
  exists (make_clause 1 None sample_employment src_paragraph), new.
  split; [exact Hp|]. split; [exact Hs|]. split; [exact Hlen|].
  exact (proj1 (FallbackFacts.sentence_split_adoption sample_employment
                  _ _ Hp Hs) Hlen).
Defined.

End FallbackSamples.

(* ----------------------------------------------------------------- *)
(** ** Keyword tests: letter case and the two classifiers *)

Module KeywordFacts.
Import StringFacts.

Lemma lower_char_idempotent (c : ascii) :
  lower_char (lower_char c) = lower_char c.
Proof. destruct c as [[] [] [] [] [] [] [] []]; reflexivity. Qed.

Lemma lower_idempotent (s : string) : lower (lower s) = lower s.
Proof.
  induction s as [|c s IH]; cbn; [reflexivity|].
  now rewrite lower_char_idempotent, IH.
Qed.

Lemma any_in_incl (ks ks' : list string) (t : string) :
  incl ks ks' -> any_in ks t = true -> any_in ks' t = true.
Proof.
  unfold any_in. rewrite !existsb_exists. intros Hi (k & Hin & Hk).
  exists k. split; [now apply Hi | exact Hk].
Qed.

(** X12: the keyword analyses look at the lower-cased text only: the risk
    assessment, both classifiers, the ambiguity detector in both modes and
    the law checker give the same result on a text and on its lower-cased
    form, and the law checker ignores the case of the contract type. *)
Theorem analyses_ignore_letter_case (t : string) :
  ClauseRisk.assess_risk (lower t) = ClauseRisk.assess_risk t /\
  ClauseRisk.classify_clause (lower t) = ClauseRisk.classify_clause t /\
  ClauseExtractor.guess_clause_type (lower t)
  = ClauseExtractor.guess_clause_type t /\
  AmbiguityDetector.detect_ambiguity (lower t)
  = AmbiguityDetector.detect_ambiguity t /\
  AmbiguityDetector.analyze_ambiguity (lower t)
  = AmbiguityDetector.analyze_ambiguity t /\
  (forall ct, IndianLawChecker.check_indian_law_issues (lower t) ct
              = IndianLawChecker.check_indian_law_issues t ct) /\
  (forall ct, IndianLawChecker.check_indian_law_issues t (Some (lower ct))
              = IndianLawChecker.check_indian_law_issues t (Some ct)).
Proof.
  assert (Hc : ClauseRisk.classify_clause (lower t)
               = ClauseRisk.classify_clause t)
    by (unfold ClauseRisk.classify_clause; now rewrite lower_idempotent).
  repeat split.
  - unfold ClauseRisk.assess_risk, ClauseRisk.scored.
    now rewrite Hc, lower_idempotent.
  - exact Hc.
  - unfold ClauseExtractor.guess_clause_type. now rewrite lower_idempotent.
  - destruct t as [|a s]; [reflexivity|].
    unfold AmbiguityDetector.detect_ambiguity.
    rewrite lower_idempotent. reflexivity.
  - destruct t as [|a s]; [reflexivity|].
    unfold AmbiguityDetector.analyze_ambiguity.
    rewrite lower_idempotent. reflexivity.
  - intros ct. destruct t as [|a s]; [reflexivity|].
    unfold IndianLawChecker.check_indian_law_issues.
    rewrite lower_idempotent. reflexivity.
  - intros ct. unfold IndianLawChecker.check_indian_law_issues.
    now rewrite lower_idempotent.
Qed.

Lemma prefix_app_weaken (k v u : string) :
  prefix (k ++ v) u = true -> prefix k u = true.
Proof.
  revert u. induction k as [|a k IH]; intros u H; [apply prefix_nil_l|].
  destruct u as [|b u]; [discriminate H|]. cbn in *.
  destruct (ascii_dec a b); [now apply IH | discriminate].
Qed.

(** A text that contains a phrase contains every beginning of the phrase. *)
Lemma contains_app_weaken (k v s : string) :
  contains (k ++ v) s = true -> contains k s = true.
Proof.
  induction s as [|c s IH]; cbn [contains]; intros H.
  - rewrite orb_false_r in *. now apply (prefix_app_weaken k v).
  - apply orb_true_iff in H as [H|H]; apply orb_true_iff;
      [left; now apply (prefix_app_weaken k v) | right; now apply IH].
Qed.

(** X13: the two classifiers agree on termination and confidentiality up
    to the lease rules that the segmentation-time classifier tries first: a
    clause that the risk classifier calls Termination gets the hint
    Termination or one of the four earlier hints, and one it calls
    Confidentiality never gets a hint after Confidentiality; in particular
    neither is ever hinted General. *)
Theorem classifiers_agree (t : string) :
  (ClauseRisk.classify_clause t = ClauseRisk.Termination ->
   In (ClauseExtractor.guess_clause_type t)
      [ClauseExtractor.SecurityDeposit; ClauseExtractor.PaymentFinancial;
       ClauseExtractor.MaintenanceHandover; ClauseExtractor.UseRestrictions;
       ClauseExtractor.KTermination]) /\
  (ClauseRisk.classify_clause t = ClauseRisk.Confidentiality ->
   In (ClauseExtractor.guess_clause_type t)
      [ClauseExtractor.SecurityDeposit; ClauseExtractor.PaymentFinancial;
       ClauseExtractor.MaintenanceHandover; ClauseExtractor.UseRestrictions;
       ClauseExtractor.KTermination; ClauseExtractor.NoticePossession;
       ClauseExtractor.KNonCompete; ClauseExtractor.KConfidentiality]).
Proof.
  split; intros H.
  - assert (E : any_in ["terminate"; "termination"] (lower t) = true).
    { revert H. unfold ClauseRisk.classify_clause. cbv zeta.
      case_conditions; (reflexivity || discriminate). }
    unfold ClauseExtractor.guess_clause_type. cbv zeta.
    rewrite (any_in_incl ["terminate"; "termination"]
               ["terminate"; "termination"; "dismiss"; "evicted";
                "eviction"; "without notice"; "may terminate at any time"]
               _ ltac:(intros x [<-|[<-|[]]]; cbn; tauto) E).
    case_conditions; cbn; tauto.
  - assert (E : any_in ["confidential"; "non-disclosure";
                        "confidential information"] (lower t) = true).
    { revert H. unfold ClauseRisk.classify_clause. cbv zeta.
      case_conditions; (reflexivity || discriminate). }
    assert (G : any_in ["confidential"; "non-disclosure"; "nda"] (lower t)
                = true).
    { unfold any_in in *. cbn [existsb] in *.
      apply orb_true_iff in E as [E|E]; [now rewrite E|].
      apply orb_true_iff in E as [E|E]; [now rewrite E, orb_true_r|].
      rewrite orb_false_r in E.
      change "confidential information"
        with ("confidential" ++ " information") in E.
      now rewrite (contains_app_weaken _ _ _ E). }
    unfold ClauseExtractor.guess_clause_type. cbv zeta. rewrite G.
    case_conditions; cbn; tauto.
Qed.

Lemma classifiers_agree_witness :
  In (ClauseExtractor.guess_clause_type
        "Either party may terminate this agreement with 30 days notice.")
     [ClauseExtractor.SecurityDeposit; ClauseExtractor.PaymentFinancial;
      ClauseExtractor.MaintenanceHandover; ClauseExtractor.UseRestrictions;
      ClauseExtractor.KTermination].
Proof.
  apply (proj1 (classifiers_agree
    "Either party may terminate this agreement with 30 days notice.")).
  vm_compute. reflexivity.
Defined.

End KeywordFacts.

(* ----------------------------------------------------------------- *)
(** ** Risk scorer: what a rating implies *)

Module RatingFacts.
Import ClauseRisk RiskNotions StringFacts.

Lemma ra_type_eq (clause : string) :
  ra_type (assess_risk clause) = classify_clause clause.
Proof. unfold assess_risk. now destruct (final_level _). Qed.

Lemma ra_reasons_eq (clause : string) :
  ra_reasons (assess_risk clause) = reasons (scored clause).
Proof. unfold assess_risk. now destruct (final_level _). Qed.

Lemma ra_tags_eq (clause : string) :
  ra_tags (assess_risk clause) = tags (scored clause).
Proof. unfold assess_risk. now destruct (final_level _). Qed.

Lemma high_iff_score (clause : string) :
  ra_risk_level (assess_risk clause) = High <->
  (60 <= score (scored clause))%Z.
Proof.
  pose proof (RiskFacts.ra_levels_eq clause) as HL.
  unfold final_level in HL.
  destruct (Z.geb_spec (score (scored clause)) 60);
    [|destruct (Z.geb_spec (score (scored clause)) 30)];
    injection HL as -> _; split; intros Hx; try reflexivity;
    try discriminate Hx; lia.
Qed.

Lemma low_iff_score (clause : string) :
  ra_risk_level (assess_risk clause) = Low <->
  (score (scored clause) < 30)%Z.
Proof.
  pose proof (RiskFacts.ra_levels_eq clause) as HL.
  unfold final_level in HL.
  destruct (Z.geb_spec (score (scored clause)) 60);
    [|destruct (Z.geb_spec (score (scored clause)) 30)];
    injection HL as -> _; split; intros Hx; try reflexivity;
    try discriminate Hx; lia.
Qed.

(** X14: only four clause types can be rated High.  A Confidentiality or
    Compensation clause scores at most 55 and a General clause at most 35,
    whatever red-flag and ambiguity phrases it contains. *)
Theorem high_needs_serious_type (clause : string) :
  let r := assess_risk clause in
  (ra_risk_level r = High ->
   In (ra_type r)
      [Termination; NonCompete; IndemnityLiability; DisputeResolution]) /\
  (In (ra_type r) [Confidentiality; Compensation] -> (ra_score r <= 55)%Z) /\
  (ra_type r = General -> (ra_score r <= 35)%Z).
Proof.
  cbv zeta. rewrite high_iff_score, ra_type_eq, RiskFacts.ra_score_eq.
  rewrite RiskFacts.score_scored. unfold type_points, bonus.
  destruct (classify_clause clause); case_conditions;
    (split; [|split]); cbn [In]; intros H;
    try lia; try tauto; try discriminate H;
    destruct H as [H|[H|[]]]; discriminate H.
Qed.

Lemma high_needs_serious_type_witness :
  (ra_score (assess_risk
               "All confidential information is irrevocable and material in perpetuity.")
   <= 55)%Z.
Proof.
  apply (proj1 (proj2 (high_needs_serious_type
    "All confidential information is irrevocable and material in perpetuity."))).
  vm_compute. tauto.
Defined.

Ltac reduce_scoring :=
  cbn [score reasons suggestions tags add_score add_reason add_suggestion
       add_tag init app negb].

(** X15: whenever the rating is Medium or High, the list of reasons is not
    empty (the rated clause always comes with an explanation to show). *)
Theorem rated_clause_has_reasons (clause : string) :
  ra_risk_level (assess_risk clause) <> Low ->
  ra_reasons (assess_risk clause) <> [].
Proof.
  rewrite low_iff_score, ra_reasons_eq. unfold scored.
  generalize (classify_clause clause) as ty. intros ty.
  unfold red_flag_boost, ambiguity_penalty.
  destruct (any_in critical_red_flags (lower clause));
    destruct (any_in ambiguity_terms (lower clause));
    reduce_scoring; try (intros _; apply app_cons_not_nil_sym).
  all: destruct ty; unfold type_rules;
    try destruct (any_in currency_markers (lower clause));
    case_conditions; reduce_scoring; intros H;
    try discriminate; exfalso; apply H; reflexivity.
Qed.

Lemma rated_clause_has_reasons_witness :
  ra_reasons
    (assess_risk "Employee shall not compete with the Employer for 2 years.")
  <> [].
Proof.
  apply (rated_clause_has_reasons
           "Employee shall not compete with the Employer for 2 years.").
  vm_compute. discriminate.
Defined.

(** X16: every clause that the scorer classifies as Termination and that
    contains "without notice" (in any letter case) scores at least 70 and
    is rated High with priority Immediate. *)
Theorem termination_without_notice_is_high (clause : string) :
  classify_clause clause = Termination ->
  contains "without notice" (lower clause) = true ->
  let r := assess_risk clause in
  (70 <= ra_score r)%Z /\ ra_risk_level r = High /\
  ra_negotiation_priority r = Immediate.
Proof.
  intros Hty Hwn. cbv zeta.
  assert (Hs : (70 <= score (scored clause))%Z).
  { rewrite RiskFacts.score_scored, Hty. unfold type_points, bonus.
    unfold any_in, critical_red_flags. cbn [existsb]. rewrite Hwn.
    cbn [orb]. rewrite orb_true_r.
    destruct (existsb _ ambiguity_terms); lia. }
  pose proof (RiskFacts.ra_levels_eq clause) as HL.
  unfold final_level in HL.
  destruct (Z.geb_spec (score (scored clause)) 60); [|lia].
  injection HL as -> ->. rewrite RiskFacts.ra_score_eq. auto.
Qed.

Lemma termination_without_notice_is_high_witness :
  ra_risk_level
    (assess_risk "Services may be terminated WITHOUT NOTICE by the vendor.")
  = High.
Proof.
  apply (termination_without_notice_is_high
           "Services may be terminated WITHOUT NOTICE by the vendor.");
    vm_compute; reflexivity.
Defined.

(** X17: when the assessment carries the tag "Ambiguity", the ambiguity
    detector run on the same clause reports at least one phrase, and one
    that is in the scorer's own list of ambiguous terms. *)
Theorem ambiguity_tag_is_detected (clause : string) :
  In "Ambiguity" (ra_tags (assess_risk clause)) ->
  exists term,
    In term ambiguity_terms /\
    In term (AmbiguityDetector.detect_ambiguity clause).
Proof.
  rewrite ra_tags_eq. intros H.
  assert (Ha : any_in ambiguity_terms (lower clause) = true).
  { destruct (any_in ambiguity_terms (lower clause)) eqn:E; [reflexivity|].
    exfalso. revert H. unfold scored, red_flag_boost, ambiguity_penalty.
    rewrite E. generalize (classify_clause clause) as ty. intros ty.
    destruct ty; unfold type_rules;
      try destruct (any_in currency_markers (lower clause));
      case_conditions; reduce_scoring; cbn [In];
      intros H; repeat (destruct H as [H|H]; try discriminate H);
      contradiction. }
  unfold any_in in Ha. apply existsb_exists in Ha as (term & Hin & Hc).
  exists term. split; [exact Hin|].
  destruct clause as [|a s].
  - cbn [lower] in Hc. exfalso. cbn [ambiguity_terms In] in Hin.
    repeat (destruct Hin as [<-|Hin]; [discriminate Hc|]). contradiction.
  - unfold AmbiguityDetector.detect_ambiguity. cbv zeta.
    apply filter_In. split; [|exact Hc].
    cbn [ambiguity_terms In] in Hin.
    repeat (destruct Hin as [<-|Hin]; [cbn; tauto|]). contradiction.
Qed.

Lemma ambiguity_tag_is_detected_witness :
  exists term,
    In term ambiguity_terms /\
    In term (AmbiguityDetector.detect_ambiguity
               "The vendor shall use best efforts to deliver on time.").
Proof.
  apply (ambiguity_tag_is_detected
           "The vendor shall use best efforts to deliver on time.").
  vm_compute. tauto.
Defined.

End RatingFacts.

(* ----------------------------------------------------------------- *)
(** ** Ambiguity detector: tiers and overlapping phrases *)

Module TierFacts.
Import AmbiguityDetector AmbiguityNotions TierNotions StringFacts.

Lemma prefix_split (k s : string) :
  prefix k s = true -> exists v, s = k ++ v.
Proof.
  revert s. induction k as [|a k IH]; intros s H; [now exists s|].
  destruct s as [|b s]; [discriminate H|]. cbn in H.
  destruct (ascii_dec a b) as [->|]; [|discriminate].
  destruct (IH _ H) as (v & ->). now exists v.
Qed.

Lemma prefix_refl (k : string) : prefix k k = true.
Proof.
  induction k as [|a k IH]; [reflexivity|]. cbn.
  destruct (ascii_dec a a); [exact IH | congruence].
Qed.

(** [k in s] says that [s] is some text, then [k], then some text. *)
Lemma contains_split (k s : string) :
  contains k s = true <-> exists u v, s = u ++ k ++ v.
Proof.
  split.
  - induction s as [|c s IH]; cbn [contains]; intros H.
    + rewrite orb_false_r in H. apply prefix_split in H as (v & ->).
      now exists "", v.
    + apply orb_true_iff in H as [H|H].
      * apply prefix_split in H as (v & ->). now exists "", v.
      * destruct (IH H) as (u & v & ->). now exists (String c u), v.
  - intros (u & v & ->). apply contains_app_r, contains_app_l.
    destruct k; [reflexivity|]. cbn [contains]. apply orb_true_iff. left.
    apply prefix_refl.
Qed.

(** A text that contains a phrase contains every part of the phrase. *)
Lemma contains_part (a k b s : string) :
  contains (a ++ k ++ b) s = true -> contains k s = true.
Proof.
  rewrite !contains_split. intros (u & v & ->).
  exists (u ++ a), (b ++ v).
  now rewrite !CoverageFacts.append_assoc.
Qed.

Lemma analysis_fields (clause_text : string) :
  aa_found_terms (analyze_ambiguity clause_text)
  = map fst (matched clause_text) /\
  aa_severity_score (analyze_ambiguity clause_text)
  = sum_severity (matched clause_text) /\
  aa_risk_level (analyze_ambiguity clause_text)
  = tier (sum_severity (matched clause_text)).
Proof.
  destruct clause_text as [|c s]; [repeat split; reflexivity|].
  unfold analyze_ambiguity. cbv zeta.
  destruct (AmbiguityFacts.scan_fold (lower (String c s)) AMBIGUOUS_TERMS
              (Scan [] 0 [] [])) as (H1 & H2 & _).
  cbv zeta in H1, H2. cbn [found severity_score] in H1, H2.
  rewrite app_nil_l in H1. rewrite Z.add_0_l in H2.
  fold (matched (String c s)) in H1, H2.
  cbn [aa_found_terms aa_severity_score aa_risk_level].
  rewrite H2. split; [exact H1|]. split; reflexivity.
Qed.

Lemma sum_severity_app (a b : list (string * term_meta)) :
  sum_severity (a ++ b) = (sum_severity a + sum_severity b)%Z.
Proof.
  induction a as [|x a IH]; cbn [app sum_severity fold_right]; [reflexivity|].
  fold (sum_severity (a ++ b)). fold (sum_severity a). rewrite IH. lia.
Qed.

Lemma sum_severity_bounds (items : list (string * term_meta)) :
  Forall (fun i => (2 <= severity (snd i) <= 3)%Z) items ->
  (2 * Z.of_nat (List.length items) <= sum_severity items
   <= 3 * Z.of_nat (List.length items))%Z.
Proof.
  induction 1 as [|x l Hx _ IH]; [cbn; lia|].
  cbn [sum_severity fold_right List.length]. fold (sum_severity l). lia.
Qed.

Lemma lexicon_severities :
  Forall (fun i => (2 <= severity (snd i) <= 3)%Z) AMBIGUOUS_TERMS.
Proof. repeat constructor; cbn; lia. Qed.

Lemma filter_Forall {A : Type} (P : A -> Prop) (p : A -> bool)
      (l : list A) :
  Forall P l -> Forall P (filter p l).
Proof.
  intros H. apply Forall_forall. intros x Hx.
  apply filter_In in Hx as [Hx _]. rewrite Forall_forall in H. auto.
Qed.

(** X18: with n the number of phrases found, the severity score lies
    between 2n and 3n.  Hence no phrase means score 0 and tier Low, a
    single phrase never gives High, two phrases give at least Medium, and
    three or more always give High. *)
Theorem tier_by_number_of_phrases (clause_text : string) :
  let a := analyze_ambiguity clause_text in
  let n := Z.of_nat (List.length (aa_found_terms a)) in
  (2 * n <= aa_severity_score a <= 3 * n)%Z /\
  (n = 0%Z -> aa_risk_level a = Low) /\
  (n = 1%Z -> aa_risk_level a <> High) /\
  (n = 2%Z -> aa_risk_level a <> Low) /\
  ((3 <= n)%Z -> aa_risk_level a = High).
Proof.
  cbv zeta. destruct (analysis_fields clause_text) as (Hf & Hs & Hr).
  rewrite Hf, Hs, Hr, length_map.
  pose proof (sum_severity_bounds (matched clause_text)
                (filter_Forall _ _ _ lexicon_severities)) as Hb.
  unfold tier. split; [exact Hb|].
  destruct (Z.geb_spec (sum_severity (matched clause_text)) 6);
    [|destruct (Z.geb_spec (sum_severity (matched clause_text)) 3)];
    repeat split; intros Hn; try reflexivity; try discriminate; lia.
Qed.

Lemma tier_by_number_of_phrases_witness :
  aa_risk_level
    (analyze_ambiguity
       "A significant and substantial change made from time to time.")
  = High.
Proof.
  apply (proj2 (proj2 (proj2 (proj2 (tier_by_number_of_phrases
    "A significant and substantial change made from time to time."))))).
  vm_compute. discriminate.
Defined.

(** X19: the phrase "commercially reasonable" is never found alone: the
    detector reports "reasonable" with it, both severities are counted (at
    least 2 + 3), and the tier is Medium or High. *)
Theorem commercially_reasonable_counts_twice (clause_text : string) :
  In "commercially reasonable" (detect_ambiguity clause_text) ->
  In "reasonable" (detect_ambiguity clause_text) /\
  (5 <= aa_severity_score (analyze_ambiguity clause_text))%Z /\
  aa_risk_level (analyze_ambiguity clause_text) <> Low.
Proof.
  intros H. destruct clause_text as [|c s]; [contradiction H|].
  unfold detect_ambiguity in *. cbv zeta in *.
  apply filter_In in H as [_ Hc].
  assert (Hr : contains "reasonable" (lower (String c s)) = true).
  { apply (contains_part "commercially " "reasonable" "").
    exact Hc. }
  destruct (analysis_fields (String c s)) as (_ & Hs & Hl).
  assert (Hsum : (5 <= sum_severity (matched (String c s)))%Z).
  { unfold matched.
    change AMBIGUOUS_TERMS
      with (firstn 4 AMBIGUOUS_TERMS ++ skipn 4 AMBIGUOUS_TERMS)%list.
    rewrite filter_app, sum_severity_app.
    assert (Ht : (0 <= sum_severity
                    (filter (fun item =>
                               contains (fst item) (lower (String c s)))
                       (skipn 4 AMBIGUOUS_TERMS)))%Z).
    { pose proof (sum_severity_bounds
        (filter (fun item => contains (fst item) (lower (String c s)))
           (skipn 4 AMBIGUOUS_TERMS))) as Hb.
      assert (Hall : Forall (fun i => (2 <= severity (snd i) <= 3)%Z)
                       (skipn 4 AMBIGUOUS_TERMS))
        by (repeat constructor; cbn; lia).
      specialize (Hb (filter_Forall _ _ _ Hall)). lia. }
    cbn [firstn AMBIGUOUS_TERMS filter fst]. rewrite Hr, Hc.
    destruct (contains "reasonably" _), (contains "best efforts" _);
      cbn [sum_severity fold_right snd severity]; lia. }
  split; [apply filter_In; split; [cbn; tauto | exact Hr]|].
  rewrite Hs, Hl. split; [exact Hsum|]. unfold tier.
  destruct (Z.geb_spec (sum_severity (matched (String c s))) 6);
    [discriminate|].
  destruct (Z.geb_spec (sum_severity (matched (String c s))) 3);
    [discriminate | lia].
Qed.

Lemma commercially_reasonable_counts_twice_witness :
  In "reasonable"
     (detect_ambiguity "Each party shall act in a Commercially Reasonable manner.").
Proof.
  apply (commercially_reasonable_counts_twice
           "Each party shall act in a Commercially Reasonable manner.").
  vm_compute. tauto.
Defined.

End TierFacts.

(* ----------------------------------------------------------------- *)
(** ** Law checker *)

Module LawFacts.
Import IndianLawChecker StringFacts.

(** X20: the Payment of Wages issue is reported exactly when the clause is
    not empty, the contract type reads "employment agreement" in some
    letter case, and the clause contains one of the three withholding
    phrases.  Called without a contract type, the checker never reports it.
    No issue is ever reported twice. *)
Theorem wages_issue_needs_employment_agreement (clause_text : string)
        (contract_type : option string) :
  (In wages_issue (check_indian_law_issues clause_text contract_type) <->
   clause_text <> "" /\
   (exists s, contract_type = Some s /\ lower s = "employment agreement") /\
   any_in ["withhold salary"; "stop payment"; "salary may be withheld"]
     (lower clause_text) = true) /\
  ~ In wages_issue (check_indian_law_issues clause_text None) /\
  NoDup (check_indian_law_issues clause_text contract_type).
Proof.
  assert (Hnone : ~ In wages_issue (check_indian_law_issues clause_text None)).
  { destruct clause_text as [|c s]; [intros []|].
    unfold check_indian_law_issues. cbv zeta.
    change (lower "" =? "employment agreement")%string with false.
    cbv iota. case_conditions; cbn [app In];
      unfold wages_issue, non_compete_issue, liability_issue;
      intros H; repeat (destruct H as [H|H]; try discriminate H);
      contradiction. }
  split; [|split; [exact Hnone|]].
  - destruct clause_text as [|c s].
    + split; [intros [] | intros [H _]; congruence].
    + unfold check_indian_law_issues. cbv zeta.
      destruct contract_type as [ct|].
      * destruct (String.eqb_spec (lower ct) "employment agreement") as [E|E].
        -- destruct (any_in ["withhold salary"; "stop payment";
                             "salary may be withheld"] _).
           ++ split; [intros _|intros _].
              ** split; [discriminate|]. split; [now exists ct | reflexivity].
              ** case_conditions; cbn [app In]; tauto.
           ++ split; [|intros (_ & _ & H); discriminate H].
              case_conditions; cbn [app In];
                unfold wages_issue, non_compete_issue, liability_issue;
                intros H; repeat (destruct H as [H|H]; try discriminate H);
                contradiction.
        -- split.
           ++ case_conditions; cbn [app In];
                unfold wages_issue, non_compete_issue, liability_issue;
                intros H; repeat (destruct H as [H|H]; try discriminate H);
                contradiction.
           ++ intros (_ & (s0 & Hs & Hl) & _). injection Hs as <-. congruence.
      * change (lower "" =? "employment agreement")%string with false.
        cbv iota. split.
        -- case_conditions; cbn [app In];
             unfold wages_issue, non_compete_issue, liability_issue;
             intros H; repeat (destruct H as [H|H]; try discriminate H);
             contradiction.
        -- intros (_ & (s0 & Hs & _) & _). discriminate Hs.
  - destruct clause_text as [|c s]; [constructor|].
    unfold check_indian_law_issues. cbv zeta.
    case_conditions; cbn [app];
      unfold wages_issue, non_compete_issue, liability_issue;
      repeat (constructor; [cbn [In]; intros H;
                            repeat (destruct H as [H|H];
                                    try discriminate H);
                            contradiction|]);
      constructor.
Qed.

Lemma wages_issue_needs_employment_agreement_witness :
  In wages_issue
     (check_indian_law_issues "The employer may withhold salary."
        (Some "Employment Agreement")).
Proof.
  apply (proj1 (wages_issue_needs_employment_agreement
                  "The employer may withhold salary."
                  (Some "Employment Agreement"))).
  split; [discriminate|]. split; [eexists; split; reflexivity | reflexivity].
Defined.

(** X21: when the checker reports the non-compete issue, the risk scorer
    classifies the same clause as Termination or Non-Compete and scores it
    at least 20. *)
Theorem non_compete_issue_is_scored (clause_text : string)
        (contract_type : option string) :
  In non_compete_issue (check_indian_law_issues clause_text contract_type) ->
  In (ClauseRisk.classify_clause clause_text)
     [ClauseRisk.Termination; ClauseRisk.NonCompete] /\
  (20 <= ClauseRisk.ra_score (ClauseRisk.assess_risk clause_text))%Z.
Proof.
  intros H.
  assert (Hk : contains "non-compete" (lower clause_text)
               || contains "non compete" (lower clause_text) = true).
  { destruct clause_text as [|c s]; [contradiction H|].
    revert H. unfold check_indian_law_issues. cbv zeta.
    destruct (contains "non-compete" _ || contains "non compete" _);
      [reflexivity|].
    case_conditions; cbn [app In];
      unfold wages_issue, non_compete_issue, liability_issue;
      intros H; repeat (destruct H as [H|H]; try discriminate H);
      contradiction. }
  assert (Hty : In (ClauseRisk.classify_clause clause_text)
                   [ClauseRisk.Termination; ClauseRisk.NonCompete]).
  { unfold ClauseRisk.classify_clause. cbv zeta.
    destruct (any_in ["terminate"; "termination"] _); [cbn; tauto|].
    assert (E : any_in ["non-compete"; "non compete"; "shall not compete";
                        "restriction after termination"]
                  (lower clause_text) = true).
    { unfold any_in. cbn [existsb].
      apply orb_true_iff in Hk as [Hk|Hk]; rewrite Hk;
        rewrite ?orb_true_r; reflexivity. }
    rewrite E. cbn. tauto. }
  split; [exact Hty|].
  rewrite RiskFacts.ra_score_eq, RiskFacts.score_scored.
  unfold RiskNotions.bonus.
  destruct Hty as [<-|[<-|[]]]; unfold RiskNotions.type_points;
    case_conditions; lia.
Qed.

Lemma non_compete_issue_is_scored_witness :
  In (ClauseRisk.classify_clause
        "The employee agrees to a Non-Compete covenant for two years.")
     [ClauseRisk.Termination; ClauseRisk.NonCompete].
Proof.
  apply (non_compete_issue_is_scored
           "The employee agrees to a Non-Compete covenant for two years."
           None).
  vm_compute. tauto.
Defined.

End LawFacts.

(* ----------------------------------------------------------------- *)
(** ** Rewriter *)

Module RewriterFacts.
Import ClauseRewriter SegmentNotions.

Lemma templates_for_cases (clause_type : string) :
  In (templates_for clause_type) (map snd REWRITE_TEMPLATES).
Proof.
  unfold templates_for, REWRITE_TEMPLATES, dict_get.
  case_conditions; cbn; tauto.
Qed.

(** X22: a clause type without an entry in the template table is rewritten
    with the General templates, and the rewrite never looks at the clause
    text.  Three of the labels that the risk scorer produces have no entry:
    Non-Compete, Indemnity & Liability and Dispute Resolution. *)
Theorem unknown_type_uses_general_templates
        (clause_text other_text risk_level clause_type : string)
        (ambiguity law_issues : list string) (notice_days years : Z) :
  (dict_get clause_type REWRITE_TEMPLATES = None ->
   rewrite_clause clause_text risk_level clause_type ambiguity law_issues
     notice_days years
   = rewrite_clause other_text risk_level "General" ambiguity law_issues
       notice_days years) /\
  Forall (fun ty => dict_get (ClauseRisk.type_label ty) REWRITE_TEMPLATES
                    = None)
         [ClauseRisk.NonCompete; ClauseRisk.IndemnityLiability;
          ClauseRisk.DisputeResolution].
Proof.
  split; [|repeat constructor].
  intros H. unfold rewrite_clause, templates_for. rewrite H. reflexivity.
Qed.

Lemma unknown_type_uses_general_templates_witness :
  rewrite_clause "Employee shall not compete." "High" "Non-Compete" [] []
    15 2
  = rewrite_clause "" "High" "General" [] [] 15 2.
Proof.
  apply (proj1 (unknown_type_uses_general_templates
                  "Employee shall not compete." "" "High" "Non-Compete"
                  [] [] 15 2)).
  reflexivity.
Defined.

Lemma has_char_concat (x : ascii) (sep : string) (l : list string) :
  has_char x sep = false ->
  Forall (fun s => has_char x s = false) l ->
  has_char x (String.concat sep l) = false.
Proof.
  intros Hsep. induction 1 as [|s l Hs Hl IH]; [reflexivity|].
  destruct l as [|s' l]; [exact Hs|].
  change (String.concat sep (s :: s' :: l))
    with (s ++ sep ++ String.concat sep (s' :: l)).
  now rewrite !CleanFacts.has_char_app, Hs, Hsep, IH.
Qed.

Lemma detected_terms_plain (x : ascii) (clause_text : string) :
  Forall (fun s => has_char x s = false)
         (map fst AmbiguityDetector.AMBIGUOUS_TERMS) ->
  Forall (fun s => has_char x s = false)
         (AmbiguityDetector.detect_ambiguity clause_text).
Proof.
  intros H. destruct clause_text as [|c s]; [constructor|].
  unfold AmbiguityDetector.detect_ambiguity. cbv zeta.
  apply Forall_forall. intros t Ht. apply filter_In in Ht as [Ht _].
  rewrite Forall_forall in H. auto.
Qed.

Lemma formatted_templates_plain (x : ascii) (t : templates)
      (notice_days years : Z) :
  In x ["{"; "}"]%char ->
  In t (map snd REWRITE_TEMPLATES) ->
  In notice_days [15; 30]%Z -> In years [2; 3; 5]%Z ->
  has_char x (format (t_high t) notice_days years) = false /\
  has_char x (format (t_medium t) notice_days years) = false.
Proof.
  cbn [In map snd REWRITE_TEMPLATES]. intros Hx Ht Hn Hy.
  repeat (destruct Hx as [<-|Hx]; [|]); try contradiction;
    repeat (destruct Ht as [<-|Ht]; [|]); try contradiction;
    repeat (destruct Hn as [<-|Hn]; [|]); try contradiction;
    repeat (destruct Hy as [<-|Hy]; [|]); try contradiction;
    split; vm_compute; reflexivity.
Qed.

(** X23: in the call that the application makes (the ambiguity list from
    detect_ambiguity, the law issues from the law checker, the two draws
    from [15, 30] and [2, 3, 5]), the rewritten clause holds no brace: every
    replacement field of the template has been filled, for every clause
    type and risk level. *)
Theorem rewritten_clause_has_no_placeholder
        (clause_text risk_level clause_type : string)
        (contract_type : option string) (notice_days years : Z) :
  In notice_days [15; 30]%Z -> In years [2; 3; 5]%Z ->
  let r := rewrite_clause clause_text risk_level clause_type
             (AmbiguityDetector.detect_ambiguity clause_text)
             (IndianLawChecker.check_indian_law_issues clause_text
                contract_type)
             notice_days years in
  has_char "{" (rewritten_clause r) = false /\
  has_char "}" (rewritten_clause r) = false.
Proof.
  intros Hn Hy. cbv zeta.
  assert (G : forall x, In x ["{"; "}"]%char ->
                has_char x
                  (rewritten_clause
                     (rewrite_clause clause_text risk_level clause_type
                        (AmbiguityDetector.detect_ambiguity clause_text)
                        (IndianLawChecker.check_indian_law_issues clause_text
                           contract_type)
                        notice_days years)) = false).
  { intros x Hx.
    destruct (formatted_templates_plain x (templates_for clause_type)
                notice_days years Hx (templates_for_cases clause_type)
                Hn Hy) as [Hh Hm].
    assert (Hterms : has_char x
              (String.concat ", "
                 (AmbiguityDetector.detect_ambiguity clause_text)) = false).
    { apply has_char_concat.
      - destruct Hx as [<-|[<-|[]]]; reflexivity.
      - apply detected_terms_plain.
        destruct Hx as [<-|[<-|[]]]; repeat constructor. }
    unfold rewrite_clause. cbv zeta.
    destruct (risk_level =? "High")%string;
      [|destruct (risk_level =? "Medium")%string];
      [| |destruct Hx as [<-|[<-|[]]]; reflexivity];
      cbn [rewritten_clause];
      destruct (nonempty (AmbiguityDetector.detect_ambiguity clause_text));
      destruct (nonempty (IndianLawChecker.check_indian_law_issues
                            clause_text contract_type));
      rewrite ?CleanFacts.has_char_app, ?Hh, ?Hm, ?Hterms;
      destruct Hx as [<-|[<-|[]]]; reflexivity. }
  split; apply G; cbn; tauto.
Qed.

Lemma rewritten_clause_has_no_placeholder_witness :
  has_char "{"
    (rewritten_clause
       (rewrite_clause
          "The company may terminate at its discretion and with unlimited liability."
          "High" "Termination"
          (AmbiguityDetector.detect_ambiguity
             "The company may terminate at its discretion and with unlimited liability.")
          (IndianLawChecker.check_indian_law_issues
             "The company may terminate at its discretion and with unlimited liability."
             None)
          30 5))
  = false.
Proof.
  apply (proj1 (rewritten_clause_has_no_placeholder
    "The company may terminate at its discretion and with unlimited liability."
    "High" "Termination" None 30 5 ltac:(cbn; tauto) ltac:(cbn; tauto))).
Defined.

End RewriterFacts.

(* ----------------------------------------------------------------- *)
(** ** Explainer *)

Module ExplainerFacts.
Import ClauseExplainer.

Lemma lower_char_not_D (c : ascii) : Ascii.eqb (lower_char c) "D" = false.
Proof. destruct c as [[] [] [] [] [] [] [] []]; reflexivity. Qed.

(** A lower-cased text is never the capitalised label of the override. *)
Lemma lower_not_damages (s : string) :
  (lower s =? "Damages, Penalties & Deductions")%string = false.
Proof.
  destruct s as [|c s]; [reflexivity|]. cbn [lower String.eqb].
  now rewrite lower_char_not_D.
Qed.

Lemma or_else_nonempty (x : option string) (d : string) :
  d <> "" -> or_else x d <> "".
Proof. destruct x as [[|c s]|]; cbn; auto; discriminate. Qed.

(** X24: the override for the type "Damages, Penalties & Deductions" can
    never be taken, because the type is compared after it has been
    lower-cased: no explanation favours "Landlord", and the risk level of
    an explanation is always present and non-empty: it is the forced risk
    (or "Low" when none is given), or "High" set by the non-compete rule. *)
Theorem damages_override_is_unreachable
        (clause_text clause_type forced_risk : option string) :
  let e := explain_clause_plain_english clause_text clause_type forced_risk in
  favours e <> "Landlord" /\
  exists level,
    risk_level e = Some level /\ level <> "" /\
    (level = "High" \/ level = or_else forced_risk "Low").
Proof.
  cbv zeta. unfold explain_clause_plain_english. cbv zeta.
  rewrite lower_not_damages.
  pose proof (or_else_nonempty forced_risk "Low" ltac:(discriminate)) as Hne.
  case_conditions;
    cbn [favours risk_level set_favours set_texts set_risk];
    (split; [discriminate|]);
    eexists; (split; [reflexivity|]);
    (split; [first [exact Hne | discriminate] | tauto]).
Qed.

(** X25: for every input, including missing text, missing type and missing
    forced risk, the explanation has a non-empty meaning, a non-empty
    reason why it matters and a non-empty suggested action. *)
Theorem explanation_is_never_blank
        (clause_text clause_type forced_risk : option string) :
  let e := explain_clause_plain_english clause_text clause_type forced_risk in
  what_it_means e <> "" /\ why_it_matters e <> "" /\ suggested_action e <> "".
Proof.
  cbv zeta. unfold explain_clause_plain_english. cbv zeta.
  case_conditions;
    cbn [what_it_means why_it_matters suggested_action set_favours set_texts
         set_risk];
    repeat split; discriminate.
Qed.

End ExplainerFacts.

(* ----------------------------------------------------------------- *)
(** ** Quality analysis and action *)

Module QualityFacts.
Import ClauseQuality.

(** X26: the action for a clause text is "Review Required" exactly when
    the text is shorter than 50 characters, longer than 1200, or contains
    none of the marks . ! ? ; the quality score is consulted only
    otherwise, and then decides between "Rewrite Suggested" and "Looks
    Acceptable".  A text is never flagged both short and long. *)
Theorem review_required_iff_warning (text : string) :
  (action_of_text text = "Review Required" <->
   (length text < 50)%nat \/ (1200 < length text)%nat
   \/ count_char is_mark text = 0%nat) /\
  In (action_of_text text)
     ["Review Required"; "Rewrite Suggested"; "Looks Acceptable"] /\
  ~ (In "Clause is unusually short" (warnings (analyze_clause_quality text))
     /\ In "Clause is unusually long (possible merge)"
           (warnings (analyze_clause_quality text))).
Proof.
  unfold action_of_text, decide_action, analyze_clause_quality. cbv zeta.
  cbn [warnings quality_score].
  destruct (Nat.ltb_spec (length text) 50);
    destruct (Nat.ltb_spec 1200 (length text));
    destruct (Nat.eqb_spec (count_char is_mark text) 0);
    cbn [app]; try lia;
    try destruct (PrimFloat.ltb _ _);
    (split; [split; [intros Hx; first [discriminate Hx | tauto]
                    | intros Hx; first [reflexivity | lia]]
            | split; [cbn; tauto
                     | cbn [In]; intros [Hs Hl];
                       repeat (destruct Hs as [Hs|Hs]; try discriminate Hs);
                       repeat (destruct Hl as [Hl|Hl]; try discriminate Hl);
                       contradiction]]).
Qed.

Lemma review_required_iff_warning_witness :
  action_of_text "Rent is due monthly." = "Review Required".
Proof.
  apply (proj1 (review_required_iff_warning "Rent is due monthly.")).
  left. cbn. lia.
Defined.

End QualityFacts.
